(** * The patient query pipeline of [src/app/api/patients/route.ts]

    A shallow embedding of the route handler: the request is the decoded
    query string ([URLSearchParams]), the stages [filterPatients],
    [sortPatients] and [paginateResults] are pure functions on lists of
    [Patient] records, and [GET] threads them in the order of the source.

    Conventions of the embedding.
    - A JavaScript number is a [number]: [NaN], the two infinities, or an
      integer.  Every number the handler computes is an integer except the
      quotient [total / limit], which the source rounds at once with
      [Math.ceil]; the two are embedded together as [Math_ceil_div].
      [parseInt] rounds what it reads to the nearest double ([to_double]),
      to an infinity beyond the range of doubles.  The arithmetic of the
      paginate stage is on array positions and is exact there.
    - Strings are [string]s of 8-bit characters; the built-ins of the
      runtime ([toLowerCase], [trim], [includes], [split], [parseInt],
      [slice], [sort]) are written out after ECMA-262 on that alphabet.
    - [String.prototype.localeCompare], the content of
      [data/patients.json] and the printing of numbers
      ([Number.prototype.toString], [String(n)]) belong to the platform:
      the definitions take them as parameters, the last with what
      ECMA-262 asks of it ([toString_contract]) where a statement needs
      it.
    - The components that build the requests ([page.tsx], the page bar,
      the sort control, the age inputs, [buildQueryParams]) are embedded
      as far as they compute the query; rendering is left out. *)

From Stdlib Require Import ZArith QArith Qround List Bool Ascii String Lia.
From Stdlib Require Import Sorting.Sorted Sorting.Permutation.
Import ListNotations.
Local Open Scope string_scope.
Local Open Scope Z_scope.

(** ** Numbers *)

Inductive number : Type :=
| NaN
| PosInf
| NegInf
| Num (z : Z).

Definition isNaN (n : number) : bool :=
  match n with NaN => true | _ => false end.

Definition num_neg (a : number) : number :=
  match a with
  | NaN => NaN
  | PosInf => NegInf
  | NegInf => PosInf
  | Num x => Num (- x)
  end.

Definition num_add (a b : number) : number :=
  match a, b with
  | NaN, _ | _, NaN => NaN
  | PosInf, NegInf | NegInf, PosInf => NaN
  | PosInf, _ | _, PosInf => PosInf
  | NegInf, _ | _, NegInf => NegInf
  | Num x, Num y => Num (x + y)
  end.

Definition num_sub (a b : number) : number := num_add a (num_neg b).

(** The sign of a non-NaN number: -1, 0 or 1. *)
Definition num_sgn (a : number) : Z :=
  match a with
  | NaN => 0
  | PosInf => 1
  | NegInf => -1
  | Num x => Z.sgn x
  end.

Definition num_mul (a b : number) : number :=
  match a, b with
  | NaN, _ | _, NaN => NaN
  | Num x, Num y => Num (x * y)
  | _, _ =>
      match num_sgn a * num_sgn b with
      | 0 => NaN
      | Zpos _ => PosInf
      | Zneg _ => NegInf
      end
  end.

(** The ceiling of the quotient of two integers, [Z.div] rounding down. *)
Definition ceil_div (x y : Z) : Z := - ((- x) / y).

(** [Math.ceil(a / b)]. *)
Definition Math_ceil_div (a b : number) : number :=
  match a, b with
  | NaN, _ | _, NaN => NaN
  | Num x, Num y =>
      if y =? 0 then
        match x with
        | 0 => NaN
        | Zpos _ => PosInf
        | Zneg _ => NegInf
        end
      else Num (ceil_div x y)
  | Num _, _ => Num 0
  | _, Num y =>
      match num_sgn a * (if y <? 0 then -1 else 1) with
      | Zneg _ => NegInf
      | _ => PosInf
      end
  | _, _ => NaN
  end.

(** [a <= b] on numbers; false as soon as one side is [NaN]. *)
Definition num_leb (a b : number) : bool :=
  match a, b with
  | NaN, _ | _, NaN => false
  | NegInf, _ => true
  | _, PosInf => true
  | Num x, Num y => x <=? y
  | _, _ => false
  end.

Definition num_geb (a b : number) : bool := num_leb b a.

(** [Math.max] and [Math.min] return [NaN] when an argument is [NaN]. *)
Definition Math_max (a b : number) : number :=
  match a, b with
  | NaN, _ | _, NaN => NaN
  | _, _ => if num_leb a b then b else a
  end.

Definition Math_min (a b : number) : number :=
  match a, b with
  | NaN, _ | _, NaN => NaN
  | _, _ => if num_leb a b then a else b
  end.

(** The nearest double of an integer, ties to the even significand of
    53 bits; an infinity from [2^1024 - 2^970] on.  Integers below 2^53
    are doubles as they are. *)
Definition to_double (v : Z) : number :=
  let a := Z.abs v in
  let e := Z.log2 a in
  if e <? 53 then Num v
  else
    let unit := 2 ^ (e - 52) in
    let q := a / unit in
    let r := a mod unit in
    let q' :=
      if (unit <? 2 * r) || ((2 * r =? unit) && Z.odd q) then q + 1
      else q in
    let m := q' * unit in
    if 2 ^ 1024 <=? m then (if v <? 0 then NegInf else PosInf)
    else Num (Z.sgn v * m).

(** ** Strings *)

(** The capital letters of the 8-bit range: A to Z, and the accented
    capitals 192 to 222 without the multiplication sign 215.  Each has its
    small letter 32 places further. *)
Definition is_upper (c : ascii) : bool :=
  let n := N_of_ascii c in
  (((65 <=? n) && (n <=? 90))
   || ((192 <=? n) && (n <=? 222) && negb (n =? 215)))%N.

Definition lower_char (c : ascii) : ascii :=
  if is_upper c then ascii_of_N (N_of_ascii c + 32) else c.

Fixpoint toLowerCase (s : string) : string :=
  match s with
  | EmptyString => EmptyString
  | String c s' => String (lower_char c) (toLowerCase s')
  end.

(** [s.includes(sub)]: [sub] occurs in [s] at some position. *)
Fixpoint includes (s sub : string) : bool :=
  String.prefix sub s ||
  match s with
  | EmptyString => false
  | String _ s' => includes s' sub
  end.

(** White space and line terminators of ECMA-262 in the 8-bit range. *)
Definition is_space (c : ascii) : bool :=
  let n := N_of_ascii c in
  (((9 <=? n) && (n <=? 13)) || (n =? 32) || (n =? 160))%N.

Fixpoint trimStart (s : string) : string :=
  match s with
  | EmptyString => EmptyString
  | String c s' => if is_space c then trimStart s' else s
  end.

(** [trimEnd] keeps a character when it is not a space or when something
    is left after it. *)
Fixpoint trimEnd (s : string) : string :=
  match s with
  | EmptyString => EmptyString
  | String c s' =>
      match trimEnd s' with
      | EmptyString => if is_space c then EmptyString else String c EmptyString
      | r => String c r
      end
  end.

Definition trim (s : string) : string := trimEnd (trimStart s).

(** [s.split(sep)] for a one-character separator: always at least one
    piece. *)
Fixpoint split (sep : ascii) (s : string) : list string :=
  match s with
  | EmptyString => [EmptyString]
  | String c s' =>
      if Ascii.eqb c sep then EmptyString :: split sep s'
      else match split sep s' with
           | [] => [String c EmptyString]
           | p :: ps => String c p :: ps
           end
  end.

(** [xs.includes(x)] on an array of strings. *)
Definition Array_includes (xs : list string) (x : string) : bool :=
  existsb (String.eqb x) xs.

(** [xs.join(sep)]. *)
Definition join (sep : string) (xs : list string) : string :=
  String.concat sep xs.

(** *** [parseInt] with no radix argument

    The value of the digits read is rounded to the nearest double, as V8
    does for the radixes 10 and 16 (ECMA-262 also lets an implementation
    take the digits after the 20th for zeros). *)

Definition digit_val (radix : Z) (c : ascii) : option Z :=
  let n := Z.of_N (N_of_ascii c) in
  let v :=
    if (48 <=? n) && (n <=? 57) then Some (n - 48)
    else if (97 <=? n) && (n <=? 122) then Some (n - 87)
    else if (65 <=? n) && (n <=? 90) then Some (n - 55)
    else None in
  match v with
  | Some d => if d <? radix then Some d else None
  | None => None
  end.

(** The value of the longest prefix of digits, [None] when it is empty. *)
Fixpoint parse_digits (radix : Z) (acc : option Z) (s : string) : option Z :=
  match s with
  | EmptyString => acc
  | String c s' =>
      match digit_val radix c with
      | Some d =>
          parse_digits radix
            (Some (radix * match acc with Some a => a | None => 0 end + d)) s'
      | None => acc
      end
  end.

Definition parseInt (input : string) : number :=
  let s := trimStart input in
  let '(sign, s) :=
    match s with
    | String "-" s' => (-1, s')
    | String "+" s' => (1, s')
    | _ => (1, s)
    end in
  let '(radix, s) :=
    match s with
    | String "0" (String "x" s') => (16, s')
    | String "0" (String "X" s') => (16, s')
    | _ => (10, s)
    end in
  match parse_digits radix None s with
  | None => NaN
  | Some v => to_double (sign * v)
  end.

(** ** Arrays *)

(** The clamping of a relative index of [slice]: [NaN] counts as 0, a
    negative index counts from the end. *)
Definition relative_index (len : Z) (n : number) : Z :=
  match n with
  | NaN => 0
  | NegInf => 0
  | PosInf => len
  | Num z => if z <? 0 then Z.max (len + z) 0 else Z.min z len
  end.

(** [xs.slice(start, end)]. *)
Definition slice {A : Type} (xs : list A) (start end_ : number) : list A :=
  let len := Z.of_nat (List.length xs) in
  let k := relative_index len start in
  let final := relative_index len end_ in
  firstn (Z.to_nat (Z.max (final - k) 0)) (skipn (Z.to_nat k) xs).

(** [xs.sort(comparefn)] on a copy: the sort of ECMAScript 2019 is stable,
    and for a consistent comparator the stable sorted arrangement is
    unique; it is computed here by insertion from the right. *)
Fixpoint sort_insert {A : Type} (cmp : A -> A -> Z) (x : A) (xs : list A)
  : list A :=
  match xs with
  | [] => [x]
  | y :: ys => if cmp x y <=? 0 then x :: y :: ys else y :: sort_insert cmp x ys
  end.

Fixpoint Array_sort {A : Type} (cmp : A -> A -> Z) (xs : list A) : list A :=
  match xs with
  | [] => []
  | x :: xs' => sort_insert cmp x (Array_sort cmp xs')
  end.

(** ** Requests and records *)

Record Patient : Type := mkPatient {
  id : Z;
  patient_name : string;
  age : Z;
  email : string;
  contact_number : string;
  medical_issue : string;
  photo_url : option string
}.

(** The decoded query string, in the order of the URL. *)
Definition URLSearchParams : Type := list (string * string).

(** [params.get(name)]: the first value of that name, or [null]. *)
Fixpoint get (params : URLSearchParams) (name : string) : option string :=
  match params with
  | [] => None
  | (k, v) :: rest => if String.eqb k name then Some v else get rest name
  end.

(** Truthiness of a value that is a string, [null] or [undefined]. *)
Definition truthy (v : option string) : bool :=
  match v with
  | Some s => negb (String.eqb s "")
  | None => false
  end.

(** [v || d] for such a value and a string [d]. *)
Definition or_else (v : option string) (d : string) : string :=
  match v with
  | Some s => if String.eqb s "" then d else s
  | None => d
  end.

Record Meta : Type := mkMeta {
  total : number;
  page : number;
  limit : number;
  totalPages : number
}.

Record ApiResponse : Type := mkApiResponse {
  data : list Patient;
  meta : Meta
}.

Inductive Body : Type :=
| ResultBody (r : ApiResponse)
| ErrorBody (error : string) (message : option string).

Record Response : Type := mkResponse {
  body : Body;
  status : Z
}.

(** ** The stages *)

Definition filterPatients (patients : list Patient) (params : URLSearchParams)
  : list Patient :=
  let filteredPatients := patients in
  let search := option_map toLowerCase (get params "search") in
  let filteredPatients :=
    match search with
    | Some search =>
        if truthy (Some search) then
          filter (fun patient =>
                    includes (toLowerCase (patient_name patient)) search
                    || includes (toLowerCase (medical_issue patient)) search)
                 filteredPatients
        else filteredPatients
    | None => filteredPatients
    end in
  let ageMin := get params "ageMin" in
  let ageMax := get params "ageMax" in
  let filteredPatients :=
    match ageMin with
    | Some ageMin =>
        if truthy (Some ageMin) then
          let minAge := parseInt ageMin in
          if negb (isNaN minAge) then
            filter (fun patient => num_geb (Num (age patient)) minAge)
                   filteredPatients
          else filteredPatients
        else filteredPatients
    | None => filteredPatients
    end in
  let filteredPatients :=
    match ageMax with
    | Some ageMax =>
        if truthy (Some ageMax) then
          let maxAge := parseInt ageMax in
          if negb (isNaN maxAge) then
            filter (fun patient => num_leb (Num (age patient)) maxAge)
                   filteredPatients
          else filteredPatients
        else filteredPatients
    | None => filteredPatients
    end in
  let medicalIssue := get params "medical_issue" in
  let filteredPatients :=
    match medicalIssue with
    | Some medicalIssue =>
        if truthy (Some medicalIssue) then
          let issues :=
            map (fun issue => toLowerCase (trim issue))
                (split "," medicalIssue) in
          filter (fun patient =>
                    Array_includes issues (toLowerCase (medical_issue patient)))
                 filteredPatients
        else filteredPatients
    | None => filteredPatients
    end in
  filteredPatients.

(** [sortOrder === 'desc'] *)
Definition is_desc (sortOrder : option string) : bool :=
  match sortOrder with
  | Some o => String.eqb o "desc"
  | None => false
  end.

(** [total], [totalPages], [offset] and the slice of [paginateResults]. *)
Definition paginateResults (patients : list Patient) (page limit : number)
  : ApiResponse :=
  let total := Num (Z.of_nat (List.length patients)) in
  let totalPages := Math_ceil_div total limit in
  let offset := num_mul (num_sub page (Num 1)) limit in
  let paginatedPatients := slice patients offset (num_add offset limit) in
  {| data := paginatedPatients;
     meta := {| total := total; page := page; limit := limit;
                totalPages := totalPages |} |}.

(** ** The handler *)

(** The calls the handler makes, in the order it makes them. *)
Inductive Stage : Type :=
| LoadStage
| FilterStage
| SortStage
| PaginateStage.

(** A computation of the [try] block: the stages entered so far, and
    either the message of a thrown [Error] or a value. *)
Definition Try (A : Type) : Type := (list Stage * (string + A))%type.

Definition ret {A : Type} (a : A) : Try A := ([], inr a).

Definition throw {A : Type} (msg : string) : Try A := ([], inl msg).

Definition bind {A B : Type} (m : Try A) (k : A -> Try B) : Try B :=
  match m with
  | (t, inl msg) => (t, inl msg)
  | (t, inr a) => let '(t', r) := k a in ((t ++ t')%list, r)
  end.

(** Entering a stage is recorded before its body runs. *)
Definition enter {A : Type} (s : Stage) (m : Try A) : Try A :=
  let '(t, r) := m in (s :: t, r).

Notation "x <- m ;; k" := (bind m (fun x => k))
  (at level 61, m at next level, right associativity).

Definition validSortFields : list string := ["age"; "patient_name"].
Definition validSortOrders : list string := ["asc"; "desc"].

(** [page] and [limit] as [GET] computes them from the query. *)
Definition GET_page (searchParams : URLSearchParams) : number :=
  Math_max (Num 1) (parseInt (or_else (get searchParams "page") "1")).

Definition GET_limit (searchParams : URLSearchParams) : number :=
  Math_min (Num 100)
    (Math_max (Num 1) (parseInt (or_else (get searchParams "limit") "20"))).

Section Runtime.

(** [a.localeCompare(b)] with no locale and no options. *)
Variable localeCompare : string -> string -> Z.

(** What reading and parsing [data/patients.json] gives; [None] when
    [readFileSync] or [JSON.parse] throws. *)
Variable patients_json : option (list Patient).

Definition loadPatientsData : Try (list Patient) :=
  match patients_json with
  | Some patients => ret patients
  | None => throw "Failed to load patients data"
  end.

(** The comparison function handed to [sort]. *)
Definition compareFn (sortBy : string) (sortOrder : option string)
    (a b : Patient) : Z :=
  if String.eqb sortBy "age" then
    let compareValue := age a - age b in
    if is_desc sortOrder then - compareValue else compareValue
  else if String.eqb sortBy "patient_name" then
    let compareValue := localeCompare (patient_name a) (patient_name b) in
    if is_desc sortOrder then - compareValue else compareValue
  else 0.

Definition sortPatients (patients : list Patient)
    (sortBy sortOrder : option string) : list Patient :=
  match sortBy with
  | Some sortBy' =>
      if truthy sortBy
      then Array_sort (compareFn sortBy' sortOrder) patients
      else patients
  | None => patients
  end.

Definition GET_try (searchParams : URLSearchParams) : Try Response :=
  let page := GET_page searchParams in
  let limit := GET_limit searchParams in
  let sortBy := or_else (get searchParams "sortBy") "" in
  let sortOrder := or_else (get searchParams "sortOrder") "asc" in
  if truthy (Some sortBy) && negb (Array_includes validSortFields sortBy)
  then
    ret {| body :=
             ErrorBody ("Invalid sortBy field. Must be one of: "
                          ++ join ", " validSortFields) None;
           status := 400 |}
  else if truthy (Some sortOrder)
          && negb (Array_includes validSortOrders sortOrder)
  then
    ret {| body :=
             ErrorBody ("Invalid sortOrder. Must be one of: "
                          ++ join ", " validSortOrders) None;
           status := 400 |}
  else
    allPatients <- enter LoadStage loadPatientsData ;;
    filteredPatients <-
      enter FilterStage (ret (filterPatients allPatients searchParams)) ;;
    sortedPatients <-
      enter SortStage
        (ret (sortPatients filteredPatients (Some sortBy) (Some sortOrder))) ;;
    result <-
      enter PaginateStage (ret (paginateResults sortedPatients page limit)) ;;
    ret {| body := ResultBody result; status := 200 |}.

(** [GET]: the [try] block, and the [catch] that answers 500. *)
Definition GET (searchParams : URLSearchParams) : list Stage * Response :=
  match GET_try searchParams with
  | (t, inr response) => (t, response)
  | (t, inl msg) =>
      (t, {| body := ErrorBody "Internal server error" (Some msg);
             status := 500 |})
  end.

End Runtime.

(** ** A sample comparator of names

    [localeCompare] itself stays a parameter of the pipeline: the
    collation of the platform is not modelled.  Where a statement about
    every comparator is shown to apply to one, [sample_collation] is the
    one: a consistent comparator that compares two names first without
    regard to case, by character, a shorter name before its extensions,
    and then, between names equal so far, puts lower case before upper
    case at the first position where they differ.  It is an instance to
    evaluate, nothing about [localeCompare] rests on it. *)

Definition primary_weight (c : ascii) : N :=
  (N_of_ascii (lower_char c) + 1)%N.

Definition tertiary_weight (c : ascii) : N :=
  if is_upper c then 1%N else 0%N.

Definition collation_key (s : string) : list N :=
  let cs := list_ascii_of_string s in
  (map primary_weight cs ++ 0%N :: map tertiary_weight cs)%list.

Definition sample_collation (a b : string) : Z :=
  match list_compare N.compare (collation_key a) (collation_key b) with
  | Eq => 0
  | Lt => -1
  | Gt => 1
  end.

(** * Vocabulary of the statements *)

(** A consistent comparator in the sense of ECMA-262: the sign of
    [cmp b a] is the opposite of the sign of [cmp a b], and "not after"
    is transitive. *)
Definition consistent {A : Type} (cmp : A -> A -> Z) : Prop :=
  (forall a b, Z.sgn (cmp b a) = - Z.sgn (cmp a b))
  /\ (forall a b c, cmp a b <= 0 -> cmp b c <= 0 -> cmp a c <= 0).

(** [params.delete(name)]: every entry of that name is removed. *)
Definition delete (params : URLSearchParams) (name : string)
  : URLSearchParams :=
  filter (fun kv => negb (String.eqb (fst kv) name)) params.

(** The number an age bound stands for, when [parseInt] finds one. *)
Definition age_bound (params : URLSearchParams) (name : string)
  : option number :=
  match get params name with
  | Some v => if isNaN (parseInt v) then None else Some (parseInt v)
  | None => None
  end.

(** The four predicates of the filter stage. *)
Definition search_ok (params : URLSearchParams) (patient : Patient) : bool :=
  match get params "search" with
  | Some s =>
      if String.eqb (toLowerCase s) "" then true
      else includes (toLowerCase (patient_name patient)) (toLowerCase s)
           || includes (toLowerCase (medical_issue patient)) (toLowerCase s)
  | None => true
  end.

Definition min_ok (params : URLSearchParams) (patient : Patient) : bool :=
  match age_bound params "ageMin" with
  | Some m => num_geb (Num (age patient)) m
  | None => true
  end.

Definition max_ok (params : URLSearchParams) (patient : Patient) : bool :=
  match age_bound params "ageMax" with
  | Some m => num_leb (Num (age patient)) m
  | None => true
  end.

Definition issue_ok (params : URLSearchParams) (patient : Patient) : bool :=
  match get params "medical_issue" with
  | Some v =>
      if String.eqb v "" then true
      else Array_includes
             (map (fun issue => toLowerCase (trim issue)) (split "," v))
             (toLowerCase (medical_issue patient))
  | None => true
  end.

Definition passes (params : URLSearchParams) (patient : Patient) : bool :=
  search_ok params patient && min_ok params patient
  && max_ok params patient && issue_ok params patient.

(** The two rejections of [GET], as conditions on the query. *)
Definition invalid_sortBy (params : URLSearchParams) : bool :=
  let sortBy := or_else (get params "sortBy") "" in
  truthy (Some sortBy) && negb (Array_includes validSortFields sortBy).

Definition invalid_sortOrder (params : URLSearchParams) : bool :=
  let sortOrder := or_else (get params "sortOrder") "asc" in
  truthy (Some sortOrder) && negb (Array_includes validSortOrders sortOrder).

Definition sortBy_error : string :=
  "Invalid sortBy field. Must be one of: age, patient_name".

Definition sortOrder_error : string :=
  "Invalid sortOrder. Must be one of: asc, desc".

(** The pipeline on loaded data, as [GET] composes it. *)
Definition pipeline (localeCompare : string -> string -> Z)
    (allPatients : list Patient) (params : URLSearchParams) : ApiResponse :=
  paginateResults
    (sortPatients localeCompare (filterPatients allPatients params)
       (Some (or_else (get params "sortBy") ""))
       (Some (or_else (get params "sortOrder") "asc")))
    (GET_page params) (GET_limit params).

(** Sample records. *)
Definition pt (i a : Z) (n issue : string) : Patient :=
  mkPatient i n a "" "" issue None.

Definition ages_example : list Patient :=
  [pt 1 30 "Asha" "fever"; pt 2 25 "Ben" "rash";
   pt 3 30 "Cara" "fever"; pt 4 40 "Dev" "headache"].

Definition case_example : list Patient :=
  [pt 1 52 "Bob" "fever"; pt 2 47 "bob" "rash"].

(** The comparison of two records by the sort key, ascending. *)
Definition key_compare (localeCompare : string -> string -> Z)
    (sortBy : string) (a b : Patient) : Z :=
  if String.eqb sortBy "age" then age a - age b
  else localeCompare (patient_name a) (patient_name b).

(** The order the sort stage is to establish for a direction. *)
Definition in_order (localeCompare : string -> string -> Z)
    (sortBy : string) (sortOrder : option string) (a b : Patient) : Prop :=
  if is_desc sortOrder then 0 <= key_compare localeCompare sortBy a b
  else key_compare localeCompare sortBy a b <= 0.

Definition all_stages : list Stage :=
  [LoadStage; FilterStage; SortStage; PaginateStage].

(** * The components that call the handler

    The page component [src/app/page.tsx] and its three controls build the
    requests the handler receives.  Their event handlers are embedded as
    functions from the event's value to the update they pass on, [None]
    when they pass nothing on. *)

(** [SortState] of [page.tsx] and [SortDropdown.tsx]. *)
Record SortState : Type := mkSortState {
  sort_sortBy : string;
  sort_sortOrder : string
}.

(** [FilterState] of [page.tsx] and [SearchFilterBar.tsx]. *)
Record FilterState : Type := mkFilterState {
  filter_search : string;
  filter_ageMin : string;
  filter_ageMax : string;
  filter_medicalIssue : string
}.

Module Pagination.

(** [for (let i = start; i <= end; i++) pages.push(i)] *)
Definition range (start end_ : Z) : list Z :=
  map (fun i : nat => start + Z.of_nat i)
      (seq 0 (Z.to_nat (end_ - start + 1))).

(** The entries of the page bar; -1 and -2 stand for the two ellipses. *)
Definition getPageNumbers (currentPage totalPages : Z) : list Z :=
  let maxVisiblePages := 7 in
  if totalPages <=? maxVisiblePages then range 1 totalPages
  else
    let pages := [1] in
    let pages := if 3 <? currentPage then (pages ++ [-1])%list else pages in
    let start := Z.max 2 (currentPage - 1) in
    let end_ := Z.min (totalPages - 1) (currentPage + 1) in
    let pages := (pages ++ range start end_)%list in
    let pages :=
      if currentPage <? totalPages - 2 then (pages ++ [-2])%list
      else pages in
    let pages :=
      if 1 <? totalPages then (pages ++ [totalPages])%list else pages in
    pages.

(** The page handed to [onPageChange], if any. *)
Definition handlePrevious (currentPage : Z) : option Z :=
  if 1 <? currentPage then Some (currentPage - 1) else None.

Definition handleNext (currentPage totalPages : Z) : option Z :=
  if currentPage <? totalPages then Some (currentPage + 1) else None.

(** What a click on an entry of the bar hands to [onPageChange]: the
    ellipses are no buttons. *)
Definition handleEntry (entry : Z) : option Z :=
  if (entry =? -1) || (entry =? -2) then None else Some entry.

(** Two neighbouring page entries are consecutive pages. *)
Fixpoint gaps_marked (pages : list Z) : Prop :=
  match pages with
  | a :: (b :: _) as rest =>
      (0 < a -> 0 < b -> b = a + 1) /\ gaps_marked rest
  | _ => True
  end.

(** An ellipsis between two page entries hides a page at least. *)
Fixpoint ellipsis_hides (pages : list Z) : Prop :=
  match pages with
  | a :: (e :: b :: _) as rest =>
      (0 < a -> e < 0 -> 0 < b -> a + 2 <= b) /\ ellipsis_hides rest
  | _ => True
  end.

End Pagination.

Module SortDropdown.

(** The [value] of the select for a sort state. *)
Definition selectValue (sort : SortState) : string :=
  if truthy (Some (sort_sortBy sort))
  then sort_sortBy sort ++ "_" ++ sort_sortOrder sort
  else "".

(** The sort state handed to [onSortChange] for a chosen value. *)
Definition handleSortChange (value : string) : SortState :=
  if String.eqb value "" then mkSortState "" "asc"
  else if String.eqb value "patient_name_asc"
       then mkSortState "patient_name" "asc"
  else if String.eqb value "patient_name_desc"
       then mkSortState "patient_name" "desc"
  else if String.eqb value "age_asc" then mkSortState "age" "asc"
  else if String.eqb value "age_desc" then mkSortState "age" "desc"
  else mkSortState "" "asc".

End SortDropdown.

Module SearchFilterBar.

Definition is_digit (c : ascii) : bool :=
  let n := N_of_ascii c in ((48 <=? n) && (n <=? 57))%N.

Fixpoint every_digit (s : string) : bool :=
  match s with
  | EmptyString => true
  | String c s' => is_digit c && every_digit s'
  end.

(** [/^\d+$/.test(value)]: one digit or more and nothing else. *)
Definition all_digits (value : string) : bool :=
  negb (String.eqb value "") && every_digit value.

(** [handleAgeMinChange] and [handleAgeMaxChange] share their test: the
    value handed to [onFilterChange], if any. *)
Definition handleAgeChange (value : string) : option string :=
  if String.eqb value ""
     || (all_digits value && num_geb (parseInt value) (Num 0))
  then Some value
  else None.

Definition handleAgeMinChange : string -> option string := handleAgeChange.
Definition handleAgeMaxChange : string -> option string := handleAgeChange.

End SearchFilterBar.

(** ** Integers in text *)

(** The character of a decimal digit. *)
Definition digit_char (d : Z) : ascii := ascii_of_N (Z.to_N (48 + d)).

(** The decimal digits of [n >= 0] in front of [acc]; one unit of fuel
    per digit. *)
Fixpoint decimal_digits (fuel : nat) (n : Z) (acc : string) : string :=
  match fuel with
  | O => acc
  | S fuel' =>
      let acc' := String (digit_char (n mod 10)) acc in
      if n <? 10 then acc' else decimal_digits fuel' (n / 10) acc'
  end.

(** The decimal text of an integer [d] followed by [rest]: a minus sign
    when [d] is negative, then the digits of its absolute value. *)
Definition decimal_text_then (d : Z) (rest : string) : string :=
  if d <? 0
  then String "-" (decimal_digits (S (Z.to_nat (Z.log2 (- d)))) (- d) rest)
  else decimal_digits (S (Z.to_nat (Z.log2 d))) d rest.

Definition decimal_text (d : Z) : string := decimal_text_then d "".

(** What ECMA-262 asks of [n.toString()] for an integer double [z] of
    absolute value below 10^21: the digits printed are those of an
    integer [d] whose nearest double is [z] (the shortest such digits,
    with zeros after them), with a minus sign for a negative [z]. *)
Definition toString_contract (Number_toString : number -> string) : Prop :=
  forall z,
    Z.abs z < 10 ^ 21 -> to_double z = Num z ->
    exists d, to_double d = Num z /\ Number_toString (Num z) = decimal_text d.

(** A printer that meets the contract by printing every digit; it serves
    where a statement needs some printer. *)
Definition print_every_digit (n : number) : string :=
  match n with
  | NaN => "NaN"
  | PosInf => "Infinity"
  | NegInf => "-Infinity"
  | Num z => decimal_text z
  end.

(** The text does not start with the x of a radix prefix. *)
Definition no_radix_mark (s : string) : bool :=
  match s with
  | EmptyString => true
  | String c _ => negb (Ascii.eqb c "x") && negb (Ascii.eqb c "X")
  end.

(** The text does not go on as a number would: it is empty, or starts
    with a character that is neither a digit nor the x of a radix
    prefix. *)
Definition ends_number (rest : string) : bool :=
  match rest with
  | EmptyString => true
  | String c _ =>
      negb (SearchFilterBar.is_digit c)
      && negb (Ascii.eqb c "x") && negb (Ascii.eqb c "X")
  end.

(** The text begins with an integer as [parseInt] looks for one: after
    leading white space, an optional sign and an optional radix prefix 0x,
    the next character is a digit of the radix. *)
Definition leads_with_integer (input : string) : bool :=
  let s := trimStart input in
  let '(sign, s) :=
    match s with
    | String "-" s' => (-1, s')
    | String "+" s' => (1, s')
    | _ => (1, s)
    end in
  let '(radix, s) :=
    match s with
    | String "0" (String "x" s') => (16, s')
    | String "0" (String "X" s') => (16, s')
    | _ => (10, s)
    end in
  match s with
  | EmptyString => false
  | String c _ =>
      match digit_val radix c with Some _ => true | None => false end
  end.

(** An integer written out and nothing else: an optional sign and
    digits, the "integer-as-string" of the interface. *)
Definition integer_text (s : string) : bool :=
  match s with
  | String "-" d => SearchFilterBar.all_digits d
  | String "+" d => SearchFilterBar.all_digits d
  | _ => SearchFilterBar.all_digits s
  end.

Module HomePage.

(** [params.set(name, value)]: the first entry of that name takes the
    value and the others go; with no such entry, one is appended. *)
Fixpoint set (params : URLSearchParams) (name value : string)
  : URLSearchParams :=
  match params with
  | [] => [(name, value)]
  | (k, v) :: rest =>
      if String.eqb k name then (name, value) :: delete rest name
      else (k, v) :: set rest name value
  end.

Section Platform.

(** [n.toString()] of the platform. *)
Variable Number_toString : number -> string.

(** The query [loadPatients] sends for a state of the page. *)
Definition loadPatients_params (currentPage : number) (filters : FilterState)
    (sort : SortState) : URLSearchParams :=
  let params := [("page", Number_toString currentPage); ("limit", "20")] in
  let params :=
    if truthy (Some (filter_search filters))
    then set params "search" (filter_search filters) else params in
  let params :=
    if truthy (Some (filter_ageMin filters))
    then set params "ageMin" (filter_ageMin filters) else params in
  let params :=
    if truthy (Some (filter_ageMax filters))
    then set params "ageMax" (filter_ageMax filters) else params in
  let params :=
    if truthy (Some (filter_medicalIssue filters))
    then set params "medical_issue" (filter_medicalIssue filters)
    else params in
  let params :=
    if truthy (Some (sort_sortBy sort))
    then set (set params "sortBy" (sort_sortBy sort))
           "sortOrder" (sort_sortOrder sort)
    else params in
  params.

End Platform.

End HomePage.

Module Fetchers.

Section Platform.

(** The numbers of the platform and [String(n)] on them. *)
Variable JSNumber : Type.
Variable String_of_number : JSNumber -> string.

(** A value of an entry handed to [buildQueryParams]. *)
Inductive QueryValue : Type :=
| QString (s : string)
| QNumber (n : JSNumber)
| QBoolean (b : bool)
| QUndefined
| QNull.

(** [String(value)] for a value that is sent. *)
Definition String_of (value : QueryValue) : string :=
  match value with
  | QString s => s
  | QNumber n => String_of_number n
  | QBoolean true => "true"
  | QBoolean false => "false"
  | QUndefined => "undefined"
  | QNull => "null"
  end.

(** [value !== undefined && value !== '' && value !== null] *)
Definition is_sent (value : QueryValue) : bool :=
  match value with
  | QUndefined | QNull => false
  | QString s => negb (String.eqb s "")
  | _ => true
  end.

(** The callback of [forEach]: what an entry does to the query. *)
Definition add_entry (searchParams : URLSearchParams)
    (entry : string * QueryValue) : URLSearchParams :=
  let '(key, value) := entry in
  if is_sent value
  then HomePage.set searchParams key (String_of value)
  else searchParams.

(** The entries of the object in their order, each key once. *)
Definition buildQueryParams (params : list (string * QueryValue))
  : URLSearchParams :=
  fold_left add_entry params [].

(** [obj[key]] on such an object. *)
Fixpoint lookup (params : list (string * QueryValue)) (key : string)
  : option QueryValue :=
  match params with
  | [] => None
  | (k, v) :: rest => if String.eqb k key then Some v else lookup rest key
  end.

End Platform.

Arguments QString {JSNumber} s.
Arguments QNumber {JSNumber} n.
Arguments QBoolean {JSNumber} b.
Arguments QUndefined {JSNumber}.
Arguments QNull {JSNumber}.
Arguments String_of {JSNumber} String_of_number value.
Arguments is_sent {JSNumber} value.
Arguments add_entry {JSNumber} String_of_number searchParams entry.
Arguments buildQueryParams {JSNumber} String_of_number params.
Arguments lookup {JSNumber} params key.

End Fetchers.

(** * Facts about the built-ins *)

Section SliceFacts.

Context {A : Type}.
Implicit Types xs : list A.

Lemma firstn_skipn_app (a b : nat) xs :
  (firstn a xs ++ firstn b (skipn a xs))%list = firstn (a + b) xs.
Proof.
  revert xs; induction a as [|a IH]; intros xs; simpl.
  - reflexivity.
  - destruct xs as [|x xs]; simpl.
    + now rewrite firstn_nil.
    + now rewrite IH.
Qed.

(** With both indices in order and not negative, [slice] takes
    [b - a] elements after dropping [a]. *)
Lemma slice_nonneg xs (a b : Z) :
  0 <= a <= b ->
  slice xs (Num a) (Num b)
  = firstn (Z.to_nat (b - a)) (skipn (Z.to_nat a) xs).
Proof.
  intros H. unfold slice, relative_index.
  destruct (Z.ltb_spec a 0) as [Ha|_]; [lia|].
  destruct (Z.ltb_spec b 0) as [Hb|_]; [lia|].
  set (len := Z.of_nat (List.length xs)).
  destruct (Z.le_gt_cases len a) as [Hlen|Hlen].
  - rewrite !(skipn_all2 xs) by lia. now rewrite !firstn_nil.
  - rewrite (Z.min_l a len) by lia.
    destruct (Z.le_gt_cases b len) as [Hb|Hb].
    + rewrite (Z.min_l b len) by lia. f_equal. lia.
    + rewrite (Z.min_r b len) by lia.
      rewrite !firstn_all2; trivial; rewrite length_skipn; lia.
Qed.

(** A [NaN] start index gives the empty slice when the end index is
    [NaN] as well. *)
Lemma slice_NaN xs : slice xs NaN NaN = [].
Proof. reflexivity. Qed.

Lemma slice_to_NaN xs (start : number) : slice xs start NaN = [].
Proof.
  unfold slice. set (k := relative_index _ start).
  assert (H : 0 <= k).
  { subst k. destruct start as [| | |z]; simpl; try lia.
    destruct (Z.ltb_spec z 0); lia. }
  simpl relative_index.
  replace (Z.to_nat (Z.max (0 - k) 0)) with 0%nat by lia. reflexivity.
Qed.

(** Consecutive chunks of [k] elements, glued, are a prefix. *)
Lemma concat_chunks (k n : nat) xs :
  List.concat (map (fun p : nat => firstn k (skipn ((p - 1) * k) xs)) (seq 1 n))
  = firstn (n * k) xs.
Proof.
  induction n as [|n IH].
  - reflexivity.
  - rewrite seq_S, map_app, concat_app, IH. simpl.
    rewrite app_nil_r, Nat.sub_0_r, firstn_skipn_app.
    f_equal. lia.
Qed.

End SliceFacts.

(** * The paginate stage *)

Section PaginateFacts.

Variable patients : list Patient.

Lemma paginate_meta (pg : number) (lim : Z) :
  1 <= lim ->
  meta (paginateResults patients pg (Num lim))
  = {| total := Num (Z.of_nat (List.length patients));
       page := pg;
       limit := Num lim;
       totalPages := Num (ceil_div (Z.of_nat (List.length patients)) lim) |}.
Proof.
intros H. unfold paginateResults, Math_ceil_div. simpl.
destruct (Z.eqb_spec lim 0); [lia|reflexivity].
Qed.

Lemma ceil_div_bounds (lim : Z) :
  1 <= lim ->
  (ceil_div (Z.of_nat (List.length patients)) lim - 1) * lim
  < Z.of_nat (List.length patients)
  <= ceil_div (Z.of_nat (List.length patients)) lim * lim.
Proof.
intros H. unfold ceil_div.
set (x := Z.of_nat (List.length patients)).
pose proof (Z.div_mod (- x) lim ltac:(lia)) as E.
pose proof (Z.mod_pos_bound (- x) lim ltac:(lia)) as B.
nia.
Qed.

Lemma ceil_div_nonneg (lim : Z) :
  1 <= lim -> 0 <= ceil_div (Z.of_nat (List.length patients)) lim.
Proof.
intros H. pose proof (ceil_div_bounds lim H) as [_ B].
set (c := ceil_div (Z.of_nat (List.length patients)) lim) in *.
destruct (Z.le_gt_cases 0 c) as [|Hneg]; trivial.
assert (c * lim <= (- 1) * lim) by (apply Z.mul_le_mono_nonneg_r; lia).
lia.
Qed.

Lemma paginate_data (p lim : Z) :
  1 <= p -> 1 <= lim ->
  data (paginateResults patients (Num p) (Num lim))
  = firstn (Z.to_nat lim) (skipn (Z.to_nat ((p - 1) * lim)) patients).
Proof.
intros Hp Hl. unfold paginateResults. simpl.
rewrite slice_nonneg by nia.
replace ((p + - 1) * lim + lim - (p + - 1) * lim) with lim by lia.
replace ((p + - 1) * lim) with ((p - 1) * lim) by lia.
reflexivity.
Qed.

End PaginateFacts.

(** * The sort of arrays *)

Section SortFacts.

Context {A : Type}.
Variable cmp : A -> A -> Z.

Lemma sort_insert_perm (x : A) (xs : list A) :
  Permutation (x :: xs) (sort_insert cmp x xs).
Proof.
  induction xs as [|y ys IH]; simpl.
  - apply Permutation_refl.
  - destruct (cmp x y <=? 0).
    + apply Permutation_refl.
    + eapply perm_trans; [apply perm_swap|]. now apply perm_skip.
Qed.

Lemma Array_sort_perm (xs : list A) : Permutation xs (Array_sort cmp xs).
Proof.
  induction xs as [|x xs IH]; simpl.
  - apply perm_nil.
  - eapply perm_trans; [apply perm_skip, IH | apply sort_insert_perm].
Qed.

(** An inserted element that the filter rejects leaves no trace. *)
Lemma filter_insert_out (f : A -> bool) (x : A) (xs : list A) :
  f x = false -> filter f (sort_insert cmp x xs) = filter f xs.
Proof.
  intros Hx. induction xs as [|y ys IH]; simpl.
  - now rewrite Hx.
  - destruct (cmp x y <=? 0); simpl.
    + now rewrite Hx.
    + now rewrite IH.
Qed.

(** An inserted element that the filter keeps comes first among the
    kept ones, when the filter rejects all it is moved across. *)
Lemma filter_insert_in (f : A -> bool) (x : A) (xs : list A) :
  f x = true ->
  (forall y, 0 < cmp x y -> f y = false) ->
  filter f (sort_insert cmp x xs) = x :: filter f xs.
Proof.
  intros Hx Hf. induction xs as [|y ys IH]; simpl.
  - now rewrite Hx.
  - destruct (Z.leb_spec (cmp x y) 0) as [Hle|Hgt]; simpl.
    + now rewrite Hx.
    + now rewrite (Hf y Hgt), IH.
Qed.

Hypothesis cmp_ok : consistent cmp.

Lemma cmp_total (a b : A) : cmp a b <= 0 \/ cmp b a <= 0.
Proof.
  destruct cmp_ok as [Hs _]. specialize (Hs a b).
  destruct (Z.le_gt_cases (cmp a b) 0) as [|Hgt]; [now left|right].
  rewrite (Z.sgn_pos (cmp a b)) in Hs by lia.
  destruct (Z.sgn_spec (cmp b a)) as [[? ?]|[[? ?]|[? ?]]]; lia.
Qed.

Lemma cmp_flip_zero (a b : A) : cmp a b = 0 -> cmp b a = 0.
Proof.
  destruct cmp_ok as [Hs _]. intros H. specialize (Hs a b).
  rewrite H in Hs. simpl in Hs. now apply Z.sgn_null_iff.
Qed.

Lemma cmp_flip_pos (a b : A) : 0 < cmp a b -> cmp b a < 0.
Proof.
  destruct cmp_ok as [Hs _]. intros H. specialize (Hs a b).
  rewrite (Z.sgn_pos (cmp a b)) in Hs by lia.
  now apply Z.sgn_neg_iff.
Qed.

(** Elements that compare equal to [x] are never strictly apart. *)
Lemma tie_not_after (x a y : A) :
  cmp x a = 0 -> 0 < cmp a y -> (cmp x y =? 0) = false.
Proof.
  destruct cmp_ok as [_ Ht]. intros Ha Hay.
  apply Z.eqb_neq. intros Hy.
  pose proof (cmp_flip_zero _ _ Ha) as Hax.
  specialize (Ht a x y). lia.
Qed.

(** Stability: among the elements that tie with [x], the order of the
    input is the order of the output. *)
Lemma Array_sort_stable (x : A) (xs : list A) :
  filter (fun y => cmp x y =? 0) (Array_sort cmp xs)
  = filter (fun y => cmp x y =? 0) xs.
Proof.
  induction xs as [|a xs IH]; simpl.
  - reflexivity.
  - destruct (Z.eqb_spec (cmp x a) 0) as [Ha|Ha].
    + rewrite filter_insert_in, IH; trivial.
      * now apply Z.eqb_eq.
      * intros y Hy. now apply (tie_not_after x a y).
    + rewrite filter_insert_out, IH; trivial.
      now apply Z.eqb_neq.
Qed.

Lemma sort_insert_sorted (x : A) (xs : list A) :
  Sorted (fun a b => cmp a b <= 0) xs ->
  Sorted (fun a b => cmp a b <= 0) (sort_insert cmp x xs).
Proof.
  induction 1 as [|y ys Hs IH Hhd]; simpl.
  - repeat constructor.
  - destruct (Z.leb_spec (cmp x y) 0) as [Hle|Hgt].
    + repeat constructor; trivial.
    + constructor; trivial.
      pose proof (cmp_flip_pos _ _ Hgt) as Hyx.
      destruct ys as [|z zs]; simpl.
      * constructor. lia.
      * destruct (cmp x z <=? 0); constructor; try lia.
        now inversion Hhd.
Qed.

Lemma Array_sort_sorted (xs : list A) :
  Sorted (fun a b => cmp a b <= 0) (Array_sort cmp xs).
Proof.
  induction xs as [|x xs IH]; simpl.
  - constructor.
  - now apply sort_insert_sorted.
Qed.

Lemma cmp_diag (a : A) : cmp a a = 0.
Proof.
destruct cmp_ok as [Hs _]. specialize (Hs a a).
apply Z.sgn_null_iff. lia.
Qed.

Lemma cmp_both (a b : A) : cmp a b <= 0 -> cmp b a <= 0 -> cmp a b = 0.
Proof.
destruct cmp_ok as [Hs _]. specialize (Hs a b). intros H1 H2.
destruct (Z.sgn_spec (cmp a b)) as [[? ?]|[[? ?]|[? ?]]];
  destruct (Z.sgn_spec (cmp b a)) as [[? ?]|[[? ?]|[? ?]]]; lia.
Qed.

Lemma sorted_head_least (a : A) (xs : list A) :
  Sorted (fun a b => cmp a b <= 0) (a :: xs) ->
  forall b, In b (a :: xs) -> cmp a b <= 0.
Proof.
intros Hs. apply Sorted_StronglySorted in Hs.
- apply StronglySorted_inv in Hs. destruct Hs as [_ Hall].
  intros b [<-|Hb].
  + rewrite cmp_diag. lia.
  + rewrite Forall_forall in Hall. now apply Hall.
- intros x y z. apply (proj2 cmp_ok).
Qed.

(** Two sorted arrangements of the same elements that keep the ties in
    the same order are the same list. *)
Lemma stable_sorted_unique (xs ys : list A) :
  Permutation xs ys ->
  Sorted (fun a b => cmp a b <= 0) xs ->
  Sorted (fun a b => cmp a b <= 0) ys ->
  (forall x, filter (fun y => cmp x y =? 0) xs
             = filter (fun y => cmp x y =? 0) ys) ->
  xs = ys.
Proof.
revert ys. induction xs as [|a xs IH]; intros ys Hp Hsx Hsy Hf.
- now apply Permutation_nil in Hp.
- destruct ys as [|b ys].
  + apply Permutation_sym, Permutation_nil in Hp. discriminate.
  + assert (Hab : cmp a b = 0).
    { apply cmp_both.
      - apply (sorted_head_least a xs Hsx).
        apply (Permutation_in b (Permutation_sym Hp)). now left.
      - apply (sorted_head_least b ys Hsy).
        apply (Permutation_in a Hp). now left. }
    assert (a = b).
    { specialize (Hf a). simpl in Hf.
      rewrite cmp_diag, Hab in Hf. simpl in Hf. congruence. }
    subst b. f_equal. apply IH.
    * now apply Permutation_cons_inv in Hp.
    * now inversion Hsx.
    * now inversion Hsy.
    * intros x. specialize (Hf x). simpl in Hf.
      destruct (cmp x a =? 0); congruence.
Qed.

(** So whatever algorithm the engine runs, a stable sort with a
    consistent comparator returns what [Array_sort] returns. *)
Lemma Array_sort_unique (xs ys : list A) :
  Permutation xs ys ->
  Sorted (fun a b => cmp a b <= 0) ys ->
  (forall x, filter (fun y => cmp x y =? 0) ys
             = filter (fun y => cmp x y =? 0) xs) ->
  ys = Array_sort cmp xs.
Proof.
intros Hp Hs Hf. apply stable_sorted_unique; trivial.
- eapply perm_trans; [apply Permutation_sym, Hp | apply Array_sort_perm].
- apply Array_sort_sorted.
- intros x. now rewrite Hf, Array_sort_stable.
Qed.

End SortFacts.

(** With every comparison a tie, the sort leaves the array as it is. *)
Lemma Array_sort_ties {A : Type} (xs : list A) :
  Array_sort (fun _ _ => 0) xs = xs.
Proof.
  induction xs as [|x xs IH]; simpl; trivial.
  rewrite IH. now destruct xs.
Qed.

(** * The comparators of the sort stage *)

Lemma consistent_opp {A : Type} (cmp : A -> A -> Z) :
  consistent cmp -> consistent (fun a b => - cmp a b).
Proof.
  intros Hc. pose proof (cmp_total cmp Hc) as Htot.
  pose proof (cmp_flip_pos cmp Hc) as Hpos.
  destruct Hc as [Hs Ht]. split.
  - intros a b. rewrite !Z.sgn_opp. now rewrite Hs.
  - intros a b c Hab Hbc.
    destruct (Z.le_gt_cases 0 (cmp a c)) as [|Hlt]; [lia|exfalso].
    (* c is not after b, b is not after a, yet a is strictly before c *)
    assert (Hcb : cmp c b <= 0).
    { destruct (Z.le_gt_cases (cmp c b) 0) as [|Hgt]; trivial.
      apply Hpos in Hgt. lia. }
    assert (Hba : cmp b a <= 0).
    { destruct (Z.le_gt_cases (cmp b a) 0) as [|Hgt]; trivial.
      apply Hpos in Hgt. lia. }
    pose proof (Ht c b a Hcb Hba) as Hca.
    specialize (Hs a c).
    rewrite (Z.sgn_neg (cmp a c)) in Hs by lia.
    destruct (Z.sgn_spec (cmp c a)) as [[? ?]|[[? ?]|[? ?]]]; lia.
Qed.

Lemma consistent_on {A B : Type} (key : A -> B) (cmp : B -> B -> Z) :
  consistent cmp -> consistent (fun a b => cmp (key a) (key b)).
Proof.
  intros [Hs Ht]. split.
  - intros a b. apply Hs.
  - intros a b c. apply Ht.
Qed.

Lemma consistent_sub : consistent Z.sub.
Proof.
  split.
  - intros a b. rewrite <- Z.sgn_opp. f_equal. lia.
  - intros a b c. lia.
Qed.

Lemma consistent_ties {A : Type} : consistent (fun _ _ : A => 0).
Proof. split; intros; reflexivity || lia. Qed.

Section CompareFacts.

Variable localeCompare : string -> string -> Z.
Hypothesis locale_ok : consistent localeCompare.

Lemma compareFn_consistent (sortBy : string) (sortOrder : option string) :
  consistent (compareFn localeCompare sortBy sortOrder).
Proof.
  unfold compareFn.
  destruct (String.eqb sortBy "age"); [|destruct (String.eqb sortBy "patient_name")].
  - destruct (is_desc sortOrder).
    + apply (consistent_opp (fun a b => age a - age b)).
      apply (consistent_on age Z.sub consistent_sub).
    + apply (consistent_on age Z.sub consistent_sub).
  - destruct (is_desc sortOrder).
    + apply (consistent_opp
               (fun a b => localeCompare (patient_name a) (patient_name b))).
      apply (consistent_on patient_name localeCompare locale_ok).
    + apply (consistent_on patient_name localeCompare locale_ok).
  - apply consistent_ties.
Qed.

End CompareFacts.

(** The model of the default collation is a consistent comparator. *)
Lemma sample_collation_consistent : consistent sample_collation.
Proof.
  assert (Heq : forall x y : N, (x ?= y)%N = Eq <-> x = y)
    by (intros; apply N.compare_eq_iff).
  assert (Hopp : forall x y : N, (y ?= x)%N = CompOpp (x ?= y)%N)
    by (intros; apply N.compare_antisym).
  assert (Htr : forall (x y z : N) c,
             (x ?= y)%N = c -> (y ?= z)%N = c -> (x ?= z)%N = c).
  { intros x y z [] H1 H2.
    - apply N.compare_eq_iff in H1, H2. apply N.compare_eq_iff. congruence.
    - rewrite N.compare_lt_iff in *. lia.
    - rewrite N.compare_gt_iff in *. lia. }
  split.
  - intros a b. unfold sample_collation.
    rewrite (list_compare_antisym N.compare Heq _ _ Hopp).
    now destruct (list_compare N.compare (collation_key a) (collation_key b)).
  - intros a b c. unfold sample_collation.
    destruct (list_compare N.compare (collation_key a) (collation_key b)) eqn:Hab;
      try lia; intros _.
    + apply (list_compare_refl N.compare Heq) in Hab. now rewrite Hab.
    + destruct (list_compare N.compare (collation_key b) (collation_key c)) eqn:Hbc;
        try lia; intros _.
      * apply (list_compare_refl N.compare Heq) in Hbc.
        rewrite <- Hbc, Hab. lia.
      * rewrite (list_compare_trans N.compare Heq _ _ _ Htr Hopp Hab Hbc).
        lia.
Qed.

(** * The filter stage *)

Lemma filter_true {A : Type} (xs : list A) : filter (fun _ => true) xs = xs.
Proof. induction xs; simpl; congruence. Qed.

Lemma filter_filter {A : Type} (f g : A -> bool) (xs : list A) :
  filter g (filter f xs) = filter (fun x => f x && g x) xs.
Proof.
  induction xs as [|x xs IH]; simpl; trivial.
  destruct (f x); simpl; [destruct (g x)|]; now rewrite IH.
Qed.

(** ** Rounding to a double *)

Lemma to_double_cases (v : Z) :
  to_double v = PosInf \/ to_double v = NegInf
  \/ exists z, to_double v = Num z.
Proof.
  unfold to_double. cbv zeta.
  destruct (Z.log2 (Z.abs v) <? 53); [eauto|].
  match goal with |- context [if ?c then _ else Num ?m] => destruct c end;
    [destruct (v <? 0)|]; eauto.
Qed.

Lemma to_double_not_NaN (v : Z) : isNaN (to_double v) = false.
Proof.
  destruct (to_double_cases v) as [-> | [-> | [z ->]]]; reflexivity.
Qed.

(** Below 2^53 every integer is a double. *)
Lemma to_double_small (v : Z) : Z.abs v < 2 ^ 53 -> to_double v = Num v.
Proof.
  intros H. unfold to_double. cbv zeta.
  destruct (Z.ltb_spec (Z.log2 (Z.abs v)) 53) as [_|Hge]; trivial.
  exfalso. destruct (Z.eq_dec (Z.abs v) 0) as [E|E].
  - rewrite E in Hge. simpl in Hge. lia.
  - assert (Hlt : Z.log2 (Z.abs v) < 53)
      by (apply Z.log2_lt_pow2; lia).
    lia.
Qed.

(** Rounding keeps the sign. *)
Lemma to_double_nonneg (v : Z) :
  0 <= v ->
  to_double v = PosInf \/ exists z, to_double v = Num z /\ 0 <= z.
Proof.
  intros Hv. unfold to_double. cbv zeta.
  destruct (Z.ltb_spec (Z.log2 (Z.abs v)) 53) as [_|He]; [right; eauto|].
  set (unit := 2 ^ (Z.log2 (Z.abs v) - 52)).
  set (q := Z.abs v / unit). set (r := Z.abs v mod unit).
  set (q' := if (unit <? 2 * r) || ((2 * r =? unit) && Z.odd q)
             then q + 1 else q).
  destruct (2 ^ 1024 <=? q' * unit).
  - destruct (Z.ltb_spec v 0); [lia|now left].
  - right. eexists. split; [reflexivity|].
    assert (Hu : 0 < unit) by (apply Z.pow_pos_nonneg; lia).
    assert (Hq : 0 <= q) by (apply Z.div_pos; lia).
    assert (Hq' : 0 <= q') by (unfold q'; destruct (_ || _); lia).
    assert (Hs : 0 <= Z.sgn v) by (apply Z.sgn_nonneg; lia).
    apply Z.mul_nonneg_nonneg; [trivial|apply Z.mul_nonneg_nonneg; lia].
Qed.

Lemma parseInt_cases (s : string) :
  parseInt s = NaN \/ parseInt s = PosInf \/ parseInt s = NegInf
  \/ exists z, parseInt s = Num z.
Proof.
  unfold parseInt.
  destruct (match trimStart s with
            | String "-" s' => (-1, s')
            | String "+" s' => (1, s')
            | _ => (1, trimStart s)
            end) as [sign s1].
  destruct (match s1 with
            | String "0" (String "x" s') => (16, s')
            | String "0" (String "X" s') => (16, s')
            | _ => (10, s1)
            end) as [radix s2].
  destruct (parse_digits radix None s2) as [v|]; [right|now left].
  apply to_double_cases.
Qed.

(** The filter stage keeps exactly the records that pass the four
    predicates, in the order of the input. *)
Lemma filterPatients_filter (patients : list Patient)
    (params : URLSearchParams) :
  filterPatients patients params = filter (passes params) patients.
Proof.
  transitivity
    (filter (issue_ok params)
       (filter (max_ok params)
          (filter (min_ok params) (filter (search_ok params) patients)))).
  - unfold filterPatients, issue_ok, max_ok, min_ok, search_ok, age_bound,
      truthy.
    destruct (get params "search") as [s|]; simpl;
      [destruct (String.eqb (toLowerCase s) ""); simpl|];
      rewrite ?filter_true.
    all: destruct (get params "ageMin") as [lo|]; simpl;
      [destruct (String.eqb_spec lo "") as [->|_]; simpl;
       [|destruct (isNaN (parseInt lo)); simpl]|];
      rewrite ?filter_true.
    all: destruct (get params "ageMax") as [hi|]; simpl;
      [destruct (String.eqb_spec hi "") as [->|_]; simpl;
       [|destruct (isNaN (parseInt hi)); simpl]|];
      rewrite ?filter_true.
    all: destruct (get params "medical_issue") as [v|]; simpl;
      [destruct (String.eqb v ""); simpl|];
      rewrite ?filter_true; reflexivity.
  - rewrite !filter_filter. apply filter_ext. intros patient.
    unfold passes. now rewrite !andb_assoc.
Qed.

(** * The handler *)

Lemma GET_page_cases (params : URLSearchParams) :
  GET_page params = NaN \/ GET_page params = PosInf
  \/ exists p, GET_page params = Num p /\ 1 <= p.
Proof.
  unfold GET_page.
  destruct (parseInt_cases (or_else (get params "page") "1"))
    as [-> | [-> | [-> | [z ->]]]].
  - now left.
  - right. now left.
  - right. right. exists 1. split; [reflexivity|lia].
  - right. right. unfold Math_max, num_leb.
    destruct (Z.leb_spec 1 z); eexists; split; try reflexivity; lia.
Qed.

Lemma GET_limit_cases (params : URLSearchParams) :
  GET_limit params = NaN
  \/ exists l, GET_limit params = Num l /\ 1 <= l <= 100.
Proof.
  unfold GET_limit.
  destruct (parseInt_cases (or_else (get params "limit") "20"))
    as [-> | [-> | [-> | [z ->]]]].
  - now left.
  - right. exists 100. split; [reflexivity|lia].
  - right. exists 1. split; [reflexivity|lia].
  - right. unfold Math_max, Math_min, num_leb.
    destruct (Z.leb_spec 1 z); simpl.
    + destruct (Z.leb_spec 100 z); eexists; split; try reflexivity; lia.
    + eexists; split; try reflexivity; lia.
Qed.

Section HandlerFacts.

Variable localeCompare : string -> string -> Z.
Variable patients_json : option (list Patient).
Variable params : URLSearchParams.

Lemma GET_invalid_sortBy :
  invalid_sortBy params = true ->
  GET localeCompare patients_json params
  = ([], {| body := ErrorBody sortBy_error None; status := 400 |}).
Proof.
  unfold invalid_sortBy, GET, GET_try. intros H.
  cbv zeta. rewrite H. reflexivity.
Qed.

Lemma GET_invalid_sortOrder :
  invalid_sortBy params = false ->
  invalid_sortOrder params = true ->
  GET localeCompare patients_json params
  = ([], {| body := ErrorBody sortOrder_error None; status := 400 |}).
Proof.
  unfold invalid_sortBy, invalid_sortOrder, GET, GET_try. intros H1 H2.
  cbv zeta. rewrite H1, H2. reflexivity.
Qed.

Lemma GET_valid :
  invalid_sortBy params = false ->
  invalid_sortOrder params = false ->
  GET localeCompare patients_json params
  = match patients_json with
    | Some allPatients =>
        (all_stages,
         {| body := ResultBody (pipeline localeCompare allPatients params);
            status := 200 |})
    | None =>
        ([LoadStage],
         {| body := ErrorBody "Internal server error"
                      (Some "Failed to load patients data");
            status := 500 |})
    end.
Proof.
  unfold invalid_sortBy, invalid_sortOrder, GET, GET_try. intros H1 H2.
  cbv zeta. rewrite H1, H2. unfold loadPatientsData.
  destruct patients_json; reflexivity.
Qed.

(** A response with status 200 carries the result of the pipeline. *)
Lemma GET_200 :
  status (snd (GET localeCompare patients_json params)) = 200 ->
  exists allPatients,
    patients_json = Some allPatients
    /\ GET localeCompare patients_json params
       = (all_stages,
          {| body := ResultBody (pipeline localeCompare allPatients params);
             status := 200 |}).
Proof.
  destruct (invalid_sortBy params) eqn:H1.
  - rewrite GET_invalid_sortBy by trivial. discriminate.
  - destruct (invalid_sortOrder params) eqn:H2.
    + rewrite GET_invalid_sortOrder by trivial. discriminate.
    + rewrite GET_valid by trivial.
      destruct patients_json as [allPatients|]; [|discriminate].
      intros _. now exists allPatients.
Qed.

End HandlerFacts.

(** * The paginate stage: pages, page count, bounds *)

Lemma ceil_div_Qceiling (x y : Z) :
  0 < y -> ceil_div x y = Qceiling (inject_Z x / inject_Z y).
Proof.
  intros Hy. destruct y as [|d|d]; try lia.
  rewrite <- (Qceiling_comp _ _ (Qmake_Qdiv x d)).
  reflexivity.
Qed.

(** C2: for a limit in [1, 100], the data slices of the pages 1 to
    totalPages, glued in order, are the whole collection; so the page
    lengths add up to total and no record is repeated or lost. *)
Theorem pages_cover_collection (patients : list Patient) (lim : Z) :
  1 <= lim <= 100 ->
  exists n : nat,
    (forall pg,
        totalPages (meta (paginateResults patients pg (Num lim)))
        = Num (Z.of_nat n))
    /\ List.concat
         (map (fun p : nat =>
                 data (paginateResults patients (Num (Z.of_nat p)) (Num lim)))
              (seq 1 n))
       = patients
    /\ list_sum
         (map (fun p : nat =>
                 List.length
                   (data (paginateResults patients (Num (Z.of_nat p))
                            (Num lim))))
              (seq 1 n))
       = List.length patients.
Proof.
  intros Hlim.
  set (len := Z.of_nat (List.length patients)).
  pose proof (ceil_div_bounds patients lim ltac:(lia)) as [_ Hup].
  pose proof (ceil_div_nonneg patients lim ltac:(lia)) as Hnn.
  fold len in Hup, Hnn.
  exists (Z.to_nat (ceil_div len lim)).
  assert (Hcat :
    List.concat
      (map (fun p : nat =>
              data (paginateResults patients (Num (Z.of_nat p)) (Num lim)))
           (seq 1 (Z.to_nat (ceil_div len lim))))
    = patients).
  { rewrite (map_ext_in _
       (fun p : nat =>
          firstn (Z.to_nat lim) (skipn ((p - 1) * Z.to_nat lim) patients))).
    - rewrite concat_chunks. apply firstn_all2. nia.
    - intros p Hp. apply in_seq in Hp.
      rewrite paginate_data by lia. do 2 f_equal. nia. }
  split; [|split].
  - intros pg. rewrite paginate_meta by lia. simpl. f_equal. fold len. lia.
  - exact Hcat.
  - apply (f_equal (@List.length Patient)) in Hcat.
    rewrite length_concat, map_map in Hcat. exact Hcat.
Qed.

Lemma pages_cover_collection_witness :
  1 <= 3 <= 100
  /\ exists n : nat,
      (forall pg,
          totalPages (meta (paginateResults ages_example pg (Num 3)))
          = Num (Z.of_nat n))
      /\ List.concat
           (map (fun p : nat =>
                   data (paginateResults ages_example (Num (Z.of_nat p))
                           (Num 3)))
                (seq 1 n))
         = ages_example
      /\ list_sum
           (map (fun p : nat =>
                   List.length
                     (data (paginateResults ages_example (Num (Z.of_nat p))
                              (Num 3))))
                (seq 1 n))
         = List.length ages_example.
Proof.
  split; [lia|]. apply (pages_cover_collection ages_example 3). lia.
Defined.

(** C4: for a limit in [1, 100], totalPages is the ceiling of
    total / limit, and it is 0 exactly when total is 0. *)
Theorem totalPages_is_ceiling (patients : list Patient) (pg : number)
    (lim : Z) :
  1 <= lim <= 100 ->
  exists tp,
    totalPages (meta (paginateResults patients pg (Num lim))) = Num tp
    /\ total (meta (paginateResults patients pg (Num lim)))
       = Num (Z.of_nat (List.length patients))
    /\ tp = Qceiling (inject_Z (Z.of_nat (List.length patients))
                      / inject_Z lim)
    /\ (tp - 1) * lim < Z.of_nat (List.length patients) <= tp * lim
    /\ (tp = 0 <-> List.length patients = 0%nat).
Proof.
  intros Hlim.
  pose proof (ceil_div_bounds patients lim ltac:(lia)) as Hb.
  exists (ceil_div (Z.of_nat (List.length patients)) lim).
  rewrite paginate_meta by lia. simpl.
  repeat split; try tauto.
  - apply ceil_div_Qceiling. lia.
  - intros E. rewrite E in Hb. lia.
  - intros E. rewrite E in *. reflexivity.
Qed.

Lemma totalPages_is_ceiling_witness :
  1 <= 3 <= 100
  /\ exists tp,
      totalPages (meta (paginateResults ages_example (Num 1) (Num 3))) = Num tp
      /\ total (meta (paginateResults ages_example (Num 1) (Num 3)))
         = Num (Z.of_nat (List.length ages_example))
      /\ tp = Qceiling (inject_Z (Z.of_nat (List.length ages_example))
                        / inject_Z 3)
      /\ (tp - 1) * 3 < Z.of_nat (List.length ages_example) <= tp * 3
      /\ (tp = 0 <-> List.length ages_example = 0%nat).
Proof.
  split; [lia|]. apply (totalPages_is_ceiling ages_example (Num 1) 3). lia.
Defined.

Lemma paginate_beyond (patients : list Patient) (p lim : Z) :
  1 <= lim ->
  ceil_div (Z.of_nat (List.length patients)) lim < p ->
  data (paginateResults patients (Num p) (Num lim)) = [].
Proof.
  intros Hl Hp.
  pose proof (ceil_div_bounds patients lim Hl) as [_ Hup].
  pose proof (ceil_div_nonneg patients lim Hl) as Hnn.
  rewrite paginate_data by lia.
  rewrite skipn_all2 by nia. apply firstn_nil.
Qed.

Lemma paginate_length (patients : list Patient) (p lim : Z) :
  1 <= p -> 1 <= lim ->
  Z.of_nat (List.length (data (paginateResults patients (Num p) (Num lim))))
  <= lim.
Proof.
  intros Hp Hl. rewrite paginate_data by lia. rewrite length_firstn. lia.
Qed.

Lemma paginate_NaN_page (patients : list Patient) (lim : number) :
  data (paginateResults patients NaN lim) = [].
Proof. reflexivity. Qed.

Lemma paginate_NaN_limit (patients : list Patient) (pg : number) :
  data (paginateResults patients pg NaN) = [].
Proof.
  unfold paginateResults. simpl.
  replace (num_add (num_mul (num_sub pg (Num 1)) NaN) NaN) with NaN
    by (now destruct (num_mul (num_sub pg (Num 1)) NaN)).
  apply slice_to_NaN.
Qed.

Lemma paginate_PosInf_page (patients : list Patient) (lim : Z) :
  1 <= lim -> data (paginateResults patients PosInf (Num lim)) = [].
Proof.
  intros Hl. unfold paginateResults. cbn [data num_sub num_neg num_add].
  assert (E : num_mul PosInf (Num lim) = PosInf).
  { unfold num_mul, num_sgn. rewrite Z.mul_1_l.
    destruct lim; simpl; trivial; lia. }
  rewrite E. cbn [num_add]. unfold slice. cbn [relative_index].
  rewrite Z.sub_diag. simpl. reflexivity.
Qed.

Lemma sortPatients_length (localeCompare : string -> string -> Z)
    (patients : list Patient) (sortBy sortOrder : option string) :
  List.length (sortPatients localeCompare patients sortBy sortOrder)
  = List.length patients.
Proof.
  unfold sortPatients. destruct sortBy as [sb|]; trivial.
  destruct (truthy (Some sb)); trivial.
  symmetry. apply Permutation_length, Array_sort_perm.
Qed.

(** C5: for a limit in [1, 100] and a page number beyond totalPages, the
    paginate stage returns no data, with total and limit in the metadata
    as for any other page; and the handler answers such a request with
    status 200. *)
Theorem page_beyond_last_is_empty (p lim : Z) :
  1 <= lim <= 100 ->
  (forall patients tp,
      totalPages (meta (paginateResults patients (Num p) (Num lim))) = Num tp ->
      tp < p ->
      paginateResults patients (Num p) (Num lim)
      = {| data := [];
           meta := {| total := Num (Z.of_nat (List.length patients));
                      page := Num p; limit := Num lim;
                      totalPages := Num tp |} |})
  /\ (forall localeCompare allPatients params tp,
         invalid_sortBy params = false ->
         invalid_sortOrder params = false ->
         GET_page params = Num p ->
         GET_limit params = Num lim ->
         totalPages (meta (pipeline localeCompare allPatients params))
         = Num tp ->
         tp < p ->
         GET localeCompare (Some allPatients) params
         = (all_stages,
            {| body :=
                 ResultBody
                   {| data := [];
                      meta :=
                        {| total :=
                             Num (Z.of_nat
                                    (List.length
                                       (filterPatients allPatients params)));
                           page := Num p; limit := Num lim;
                           totalPages := Num tp |} |};
               status := 200 |})).
Proof.
  intros Hlim.
  assert (Hstage : forall patients tp,
      totalPages (meta (paginateResults patients (Num p) (Num lim))) = Num tp ->
      tp < p ->
      paginateResults patients (Num p) (Num lim)
      = {| data := [];
           meta := {| total := Num (Z.of_nat (List.length patients));
                      page := Num p; limit := Num lim;
                      totalPages := Num tp |} |}).
  { intros patients tp Htp Hlt.
    rewrite paginate_meta in Htp by lia. simpl in Htp.
    injection Htp as Htp.
    pose proof (paginate_beyond patients p lim ltac:(lia) ltac:(lia)) as Hd.
    pose proof (paginate_meta patients (Num p) lim ltac:(lia)) as Hm.
    destruct (paginateResults patients (Num p) (Num lim)) as [d m].
    simpl in Hd, Hm. now rewrite Hd, Hm, Htp. }
  split; [exact Hstage|].
  intros localeCompare allPatients params tp Hby Hord Hp Hl Htp Hlt.
  rewrite GET_valid by trivial.
  unfold pipeline in *. rewrite Hp, Hl in *.
  rewrite (Hstage _ tp Htp Hlt), sortPatients_length. reflexivity.
Qed.

Lemma page_beyond_last_is_empty_witness :
  1 <= 3 <= 100
  /\ paginateResults ages_example (Num 3) (Num 3)
     = {| data := [];
          meta := {| total := Num 4; page := Num 3; limit := Num 3;
                     totalPages := Num 2 |} |}.
Proof.
  split; [lia|].
  apply (proj1 (page_beyond_last_is_empty 3 3 ltac:(lia)) ages_example 2).
  - reflexivity.
  - lia.
Defined.

(** C10: for page >= 1 and a limit in [1, 100] the paginate stage returns
    at most limit records; so a response of the handler with status 200
    never carries more records than the limit the handler computed, which
    is at most 100. *)
Theorem page_length_at_most_limit :
  (forall (patients : list Patient) (p lim : Z),
      1 <= p -> 1 <= lim <= 100 ->
      Z.of_nat
        (List.length (data (paginateResults patients (Num p) (Num lim))))
      <= lim)
  /\ (forall localeCompare patients_json params,
         status (snd (GET localeCompare patients_json params)) = 200 ->
         exists r,
           body (snd (GET localeCompare patients_json params)) = ResultBody r
           /\ limit (meta r) = GET_limit params
           /\ ((exists l, GET_limit params = Num l /\ 1 <= l <= 100
                          /\ Z.of_nat (List.length (data r)) <= l)
               \/ (GET_limit params = NaN /\ data r = []))).
Proof.
  split.
  - intros patients p lim Hp Hl. apply paginate_length; lia.
  - intros localeCompare patients_json params H200.
    destruct (GET_200 _ _ _ H200) as [allPatients [_ ->]]. simpl.
    eexists; split; [reflexivity|]. split; [reflexivity|].
    unfold pipeline.
    destruct (GET_limit_cases params) as [->|[l [-> Hl]]].
    + right. split; trivial. apply paginate_NaN_limit.
    + left. exists l. repeat split; try lia.
      destruct (GET_page_cases params) as [->|[->|[p [-> Hp]]]].
      * rewrite paginate_NaN_page. simpl. lia.
      * rewrite paginate_PosInf_page by lia. simpl. lia.
      * apply paginate_length; lia.
Qed.

Lemma page_length_at_most_limit_witness :
  (1 <= 2 /\ 1 <= 3 <= 100)
  /\ Z.of_nat
       (List.length (data (paginateResults ages_example (Num 2) (Num 3))))
     <= 3.
Proof.
  split; [lia|].
  apply (proj1 page_length_at_most_limit ages_example 2 3); lia.
Defined.

(** * Parsing of page and limit *)

(** C3: [page] and [limit] are clamped and defaulted whenever [parseInt]
    finds an integer, but a value with no leading integer goes through
    [Math.max] and [Math.min] as [NaN]: for [page=abc] and [limit=abc] the
    handler paginates with [NaN] and answers 200 with [NaN] in the
    metadata. *)
Theorem page_limit_not_clamped_on_NaN :
  GET_page [("page", "abc")] = NaN
  /\ GET_limit [("limit", "abc")] = NaN
  /\ (forall localeCompare,
         GET localeCompare (Some ages_example)
           [("page", "abc"); ("limit", "abc")]
         = (all_stages,
            {| body :=
                 ResultBody
                   {| data := [];
                      meta := {| total := Num 4; page := NaN; limit := NaN;
                                 totalPages := NaN |} |};
               status := 200 |}))
  /\ GET_page [] = Num 1
  /\ GET_limit [] = Num 20
  /\ (forall params,
         match parseInt (or_else (get params "page") "1") with
         | Num z => GET_page params = Num (Z.max 1 z)
         | PosInf => GET_page params = PosInf
         | NegInf => GET_page params = Num 1
         | NaN => GET_page params = NaN
         end)
  /\ (forall params,
         match parseInt (or_else (get params "limit") "20") with
         | Num z => GET_limit params = Num (Z.min 100 (Z.max 1 z))
         | PosInf => GET_limit params = Num 100
         | NegInf => GET_limit params = Num 1
         | NaN => GET_limit params = NaN
         end).
Proof.
  repeat split.
  - intros params. unfold GET_page.
    destruct (parseInt_cases (or_else (get params "page") "1"))
      as [-> | [-> | [-> | [z ->]]]]; trivial.
    unfold Math_max, num_leb. destruct (Z.leb_spec 1 z); f_equal; lia.
  - intros params. unfold GET_limit.
    destruct (parseInt_cases (or_else (get params "limit") "20"))
      as [-> | [-> | [-> | [z ->]]]]; trivial.
    unfold Math_max, Math_min, num_leb.
    destruct (Z.leb_spec 1 z); simpl.
    + destruct (Z.leb_spec 100 z); f_equal; lia.
    + f_equal. lia.
Qed.

(** * Validation of the sort parameters *)









(** * The sort stage *)

Lemma Sorted_weaken {A : Type} (R R' : A -> A -> Prop) (xs : list A) :
  (forall a b, R a b -> R' a b) -> Sorted R xs -> Sorted R' xs.
Proof.
  intros HR. induction 1 as [|x xs Hs IH Hhd]; constructor; trivial.
  destruct Hhd; constructor; auto.
Qed.

Section SortStage.

Variable localeCompare : string -> string -> Z.
Hypothesis locale_ok : consistent localeCompare.

Variable sortBy : string.
Hypothesis sortBy_ok : sortBy = "age" \/ sortBy = "patient_name".

Variable sortOrder : option string.

(** For [desc] the comparison function is the ascending one, negated. *)
Lemma compareFn_key (a b : Patient) :
  compareFn localeCompare sortBy sortOrder a b
  = if is_desc sortOrder then - key_compare localeCompare sortBy a b
    else key_compare localeCompare sortBy a b.
Proof.
  unfold compareFn, key_compare.
  destruct sortBy_ok as [-> | ->]; reflexivity.
Qed.

Lemma sortPatients_sort (patients : list Patient) :
  sortPatients localeCompare patients (Some sortBy) sortOrder
  = Array_sort (compareFn localeCompare sortBy sortOrder) patients.
Proof.
  unfold sortPatients. destruct sortBy_ok as [-> | ->]; reflexivity.
Qed.

Lemma sortPatients_perm (patients : list Patient) :
  Permutation patients
    (sortPatients localeCompare patients (Some sortBy) sortOrder).
Proof. rewrite sortPatients_sort. apply Array_sort_perm. Qed.

Lemma sortPatients_in_order (patients : list Patient) :
  Sorted (in_order localeCompare sortBy sortOrder)
    (sortPatients localeCompare patients (Some sortBy) sortOrder).
Proof.
  rewrite sortPatients_sort.
  eapply Sorted_weaken;
    [|apply Array_sort_sorted, compareFn_consistent, locale_ok].
  intros a b. simpl. rewrite compareFn_key. unfold in_order.
  destruct (is_desc sortOrder); lia.
Qed.

Lemma sortPatients_stable (patients : list Patient) (x : Patient) :
  filter (fun y => key_compare localeCompare sortBy x y =? 0)
    (sortPatients localeCompare patients (Some sortBy) sortOrder)
  = filter (fun y => key_compare localeCompare sortBy x y =? 0) patients.
Proof.
  rewrite sortPatients_sort.
  assert (Hext : forall y,
             (key_compare localeCompare sortBy x y =? 0)
             = (compareFn localeCompare sortBy sortOrder x y =? 0)).
  { intros y. rewrite compareFn_key.
    destruct (is_desc sortOrder); trivial.
    destruct (Z.eqb_spec (key_compare localeCompare sortBy x y) 0),
             (Z.eqb_spec (- key_compare localeCompare sortBy x y) 0);
      trivial; lia. }
  rewrite !(filter_ext _ _ Hext).
  apply Array_sort_stable, compareFn_consistent, locale_ok.
Qed.

End SortStage.

(** C1: for sortBy age or patient_name the sort stage sorts with the
    comparison negated when sortOrder is desc, and in either direction the
    records whose sort keys tie stay in the order of the input; the ages
    30, 25, 30, 40 sorted by age, desc, come out as 40, the first 30, the
    second 30, 25, which is not the reversal of the ascending result. *)
Theorem sort_desc_keeps_ties
    (localeCompare : string -> string -> Z)
    (patients : list Patient) (sortBy : string) (sortOrder : option string) :
  consistent localeCompare ->
  sortBy = "age" \/ sortBy = "patient_name" ->
  (sortPatients localeCompare patients (Some sortBy) sortOrder
   = Array_sort
       (fun a b => if is_desc sortOrder
                   then - key_compare localeCompare sortBy a b
                   else key_compare localeCompare sortBy a b)
       patients)
  /\ Sorted (in_order localeCompare sortBy sortOrder)
       (sortPatients localeCompare patients (Some sortBy) sortOrder)
  /\ (forall x,
         filter (fun y => key_compare localeCompare sortBy x y =? 0)
           (sortPatients localeCompare patients (Some sortBy) sortOrder)
         = filter (fun y => key_compare localeCompare sortBy x y =? 0)
             patients)
  /\ map id (sortPatients localeCompare ages_example (Some "age")
               (Some "desc"))
     = [4; 1; 3; 2]
  /\ map id (rev (sortPatients localeCompare ages_example (Some "age")
                    (Some "asc")))
     = [4; 3; 1; 2].
Proof.
  intros Hlc Hby. split; [|split; [|split; [|split]]].
  - rewrite sortPatients_sort by trivial.
    unfold compareFn, key_compare. destruct Hby as [-> | ->]; reflexivity.
  - now apply sortPatients_in_order.
  - intros x. now apply sortPatients_stable.
  - reflexivity.
  - reflexivity.
Qed.

Lemma sort_desc_keeps_ties_witness :
  map id (sortPatients sample_collation ages_example (Some "age")
            (Some "desc"))
  = [4; 1; 3; 2]
  /\ filter (fun y => key_compare sample_collation "age" (pt 1 30 "Asha" "fever") y =? 0)
       (sortPatients sample_collation ages_example (Some "age")
          (Some "desc"))
     = [pt 1 30 "Asha" "fever"; pt 3 30 "Cara" "fever"].
Proof.
  pose proof (sort_desc_keeps_ties sample_collation ages_example "age"
                (Some "desc") sample_collation_consistent
                (or_introl eq_refl)) as [_ [_ [Hties [Hex _]]]].
  split; [exact Hex|]. rewrite Hties. reflexivity.
Defined.

(** C8: the comparison of names is not case-insensitive.  The sort stage
    calls [localeCompare] with no options, and so orders two names it
    tells apart although they differ in case only: of two records [a]
    before [b] with [localeCompare] putting the name of [a] after the name
    of [b], the ascending sort returns [b] before [a], with an explicit
    direction or none, and the descending sort turns [b] before [a] into
    [a] before [b]; a comparison under which the two records tie, as a
    case-insensitive one does for names that differ in case only, leaves
    them as they are. *)
Theorem sort_by_name_is_case_sensitive
    (localeCompare : string -> string -> Z) (a b : Patient) :
  consistent localeCompare ->
  0 < localeCompare (patient_name a) (patient_name b) ->
  sortPatients localeCompare [a; b] (Some "patient_name") (Some "asc")
  = [b; a]
  /\ sortPatients localeCompare [a; b] (Some "patient_name") None = [b; a]
  /\ sortPatients localeCompare [b; a] (Some "patient_name") (Some "desc")
     = [a; b]
  /\ (forall cmp : Patient -> Patient -> Z,
         cmp a b = 0 -> Array_sort cmp [a; b] = [a; b]).
Proof.
  intros [Hsgn _] H. repeat split.
  - unfold sortPatients. cbn [truthy String.eqb negb Array_sort sort_insert].
    unfold compareFn. cbn [String.eqb Ascii.eqb Bool.eqb is_desc].
    destruct (Z.leb_spec (localeCompare (patient_name a) (patient_name b)) 0);
      [lia|reflexivity].
  - unfold sortPatients. cbn [truthy String.eqb negb Array_sort sort_insert].
    unfold compareFn. cbn [String.eqb Ascii.eqb Bool.eqb is_desc].
    destruct (Z.leb_spec (localeCompare (patient_name a) (patient_name b)) 0);
      [lia|reflexivity].
  - unfold sortPatients. cbn [truthy String.eqb negb Array_sort sort_insert].
    unfold compareFn. cbn [String.eqb Ascii.eqb Bool.eqb is_desc].
    specialize (Hsgn (patient_name a) (patient_name b)).
    destruct (Z.leb_spec
                (- localeCompare (patient_name b) (patient_name a)) 0);
      [lia|reflexivity].
  - intros cmp E. cbn [Array_sort sort_insert]. now rewrite E.
Qed.

Lemma sort_by_name_is_case_sensitive_witness :
  toLowerCase "Bob" = toLowerCase "bob"
  /\ sortPatients sample_collation case_example (Some "patient_name")
       (Some "asc")
     = [pt 2 47 "bob" "rash"; pt 1 52 "Bob" "fever"].
Proof.
  split; [reflexivity|].
  apply (sort_by_name_is_case_sensitive sample_collation
           (pt 1 52 "Bob" "fever") (pt 2 47 "bob" "rash")
           sample_collation_consistent).
  reflexivity.
Defined.

(** * The filter stage: age bounds, idempotence *)

Lemma get_delete_same (params : URLSearchParams) (name : string) :
  get (delete params name) name = None.
Proof.
  induction params as [|[k v] rest IH]; simpl; trivial.
  destruct (String.eqb_spec k name) as [E|E]; simpl; trivial.
  destruct (String.eqb_spec k name); [contradiction|trivial].
Qed.

Lemma get_delete_other (params : URLSearchParams) (name other : string) :
  other <> name -> get (delete params name) other = get params other.
Proof.
  intros Hne. induction params as [|[k v] rest IH]; simpl; trivial.
  destruct (String.eqb_spec k name) as [E|E]; simpl.
  - destruct (String.eqb_spec k other); [congruence|trivial].
  - now rewrite IH.
Qed.

Lemma age_bound_None (params : URLSearchParams) (name : string) :
  age_bound params name = None
  <-> get params name = None
      \/ exists s, get params name = Some s /\ parseInt s = NaN.
Proof.
  unfold age_bound. destruct (get params name) as [s|].
  - destruct (parseInt s) eqn:E; simpl; split; eauto; try discriminate.
    all: intros [H|[s' [H1 H2]]]; congruence.
  - split; auto.
Qed.

(** Removing a bound that [parseInt] cannot read changes nothing. *)
Lemma passes_delete_bound (params : URLSearchParams) (name : string)
    (patient : Patient) :
  name = "ageMin" \/ name = "ageMax" ->
  age_bound params name = None ->
  passes (delete params name) patient = passes params patient.
Proof.
  intros Hname Hb.
  unfold passes, search_ok, min_ok, max_ok, issue_ok in *.
  destruct Hname as [-> | ->].
  - rewrite Hb. unfold age_bound in *.
    rewrite get_delete_same.
    rewrite !get_delete_other by discriminate. reflexivity.
  - rewrite Hb. unfold age_bound in *.
    rewrite get_delete_same.
    rewrite !get_delete_other by discriminate. reflexivity.
Qed.

(** C9: the filter stage is idempotent. *)
Theorem filter_idempotent (patients : list Patient)
    (params : URLSearchParams) :
  filterPatients (filterPatients patients params) params
  = filterPatients patients params.
Proof.
  rewrite !filterPatients_filter, filter_filter.
  apply filter_ext. intros patient. apply andb_diag.
Qed.

(** * Further properties of the filter stage *)

Lemma passes_filter_In (patients : list Patient) (params : URLSearchParams)
    (patient : Patient) :
  In patient (filterPatients patients params)
  <-> In patient patients /\ passes params patient = true.
Proof. rewrite filterPatients_filter. apply filter_In. Qed.

Lemma passes_no_parameters (params : URLSearchParams) (patient : Patient) :
  (forall name,
      In name ["search"; "ageMin"; "ageMax"; "medical_issue"] ->
      get params name = None \/ get params name = Some "") ->
  passes params patient = true.
Proof.
  intros H.
  unfold passes, search_ok, min_ok, max_ok, issue_ok, age_bound.
  destruct (H "search") as [-> | ->]; [simpl; tauto| |];
    destruct (H "ageMin") as [-> | ->]; try (simpl; tauto);
    destruct (H "ageMax") as [-> | ->]; try (simpl; tauto);
    destruct (H "medical_issue") as [-> | ->]; try (simpl; tauto);
    reflexivity.
Qed.

(** With every filter parameter absent or empty the filter stage returns
    the collection as it is. *)
Theorem filter_without_parameters (patients : list Patient)
    (params : URLSearchParams) :
  (forall name,
      In name ["search"; "ageMin"; "ageMax"; "medical_issue"] ->
      get params name = None \/ get params name = Some "") ->
  filterPatients patients params = patients.
Proof.
  intros H. rewrite filterPatients_filter.
  rewrite <- (filter_true patients) at 2.
  apply filter_ext. intros patient.
  now apply passes_no_parameters.
Qed.

Lemma filter_without_parameters_witness :
  filterPatients ages_example [("page", "2"); ("search", "")] = ages_example.
Proof.
  apply (filter_without_parameters ages_example
           [("page", "2"); ("search", "")]).
  intros name [<-|[<-|[<-|[<-|[]]]]]; simpl; auto.
Defined.

Lemma sortPatients_nil (localeCompare : string -> string -> Z)
    (sortBy sortOrder : option string) :
  sortPatients localeCompare [] sortBy sortOrder = [].
Proof.
  unfold sortPatients. destruct sortBy as [sb|]; trivial.
  now destruct (truthy (Some sb)).
Qed.

Lemma slice_nil {A : Type} (start end_ : number) :
  slice (@nil A) start end_ = [].
Proof. unfold slice. now rewrite skipn_nil, firstn_nil. Qed.

(** Bounds that exclude each other, ageMin above ageMax, are no error:
    the filter stage returns nothing, and the handler, the sort
    parameters being valid and the data loaded, answers 200 with no data
    and a total of 0. *)
Theorem crossed_age_bounds_match_nothing
    (localeCompare : string -> string -> Z)
    (allPatients : list Patient) (params : URLSearchParams)
    (smin smax : string) (lo hi : Z) :
  get params "ageMin" = Some smin -> parseInt smin = Num lo ->
  get params "ageMax" = Some smax -> parseInt smax = Num hi ->
  hi < lo ->
  filterPatients allPatients params = []
  /\ data (pipeline localeCompare allPatients params) = []
  /\ total (meta (pipeline localeCompare allPatients params)) = Num 0
  /\ (invalid_sortBy params = false ->
      invalid_sortOrder params = false ->
      GET localeCompare (Some allPatients) params
      = (all_stages,
         {| body :=
              ResultBody
                {| data := [];
                   meta :=
                     {| total := Num 0;
                        page := GET_page params;
                        limit := GET_limit params;
                        totalPages :=
                          Math_ceil_div (Num 0) (GET_limit params) |} |};
            status := 200 |})).
Proof.
  intros Hmin Hlo Hmax Hhi Hlt.
  assert (Hnil : filterPatients allPatients params = []).
  { rewrite filterPatients_filter.
    induction allPatients as [|patient rest IH]; simpl; trivial.
    replace (passes params patient) with false; trivial.
    unfold passes, min_ok, max_ok, age_bound.
    rewrite Hmin, Hlo, Hmax, Hhi. cbn [isNaN num_geb num_leb].
    destruct (Z.leb_spec lo (age patient)), (Z.leb_spec (age patient) hi);
      try lia; now rewrite ?andb_false_r. }
  assert (Hpipe : pipeline localeCompare allPatients params
                  = {| data := [];
                       meta :=
                         {| total := Num 0;
                            page := GET_page params;
                            limit := GET_limit params;
                            totalPages :=
                              Math_ceil_div (Num 0) (GET_limit params) |} |}).
  { unfold pipeline. rewrite Hnil, sortPatients_nil.
    unfold paginateResults. now rewrite slice_nil. }
  split; [exact Hnil|]. rewrite Hpipe.
  split; [reflexivity|]. split; [reflexivity|].
  intros Hby Hord. rewrite GET_valid by trivial. now rewrite Hpipe.
Qed.

Lemma crossed_age_bounds_match_nothing_witness :
  filterPatients ages_example [("ageMin", "30"); ("ageMax", "20")] = []
  /\ status (snd (GET sample_collation (Some ages_example)
                    [("ageMin", "30"); ("ageMax", "20")])) = 200.
Proof.
  pose proof (crossed_age_bounds_match_nothing sample_collation ages_example
                [("ageMin", "30"); ("ageMax", "20")] "30" "20" 30 20
                eq_refl eq_refl eq_refl eq_refl ltac:(lia))
    as [Hnil [_ [_ Hget]]].
  split; [exact Hnil|]. now rewrite Hget.
Defined.

(** Filtering by one set of parameters and then by another gives the
    same records as filtering in the other order. *)
Theorem filters_commute (patients : list Patient)
    (params1 params2 : URLSearchParams) :
  filterPatients (filterPatients patients params1) params2
  = filterPatients (filterPatients patients params2) params1.
Proof.
  rewrite !filterPatients_filter, !filter_filter.
  apply filter_ext. intros patient. apply andb_comm.
Qed.

(** ** The list of medical issues *)

Lemma split_not_nil (sep : ascii) (s : string) : split sep s <> [].
Proof.
  destruct s as [|c s]; simpl; [discriminate|].
  destruct (Ascii.eqb c sep); [discriminate|].
  destruct (split sep s); discriminate.
Qed.

(** Splitting at a separator splits each side of it. *)
Lemma split_app (sep : ascii) (a b : string) :
  split sep (a ++ String sep b) = (split sep a ++ split sep b)%list.
Proof.
  induction a as [|c a IH]; simpl.
  - now rewrite Ascii.eqb_refl.
  - rewrite IH. destruct (Ascii.eqb c sep); trivial.
    pose proof (split_not_nil sep a) as Hne.
    destruct (split sep a); [contradiction|reflexivity].
Qed.

(** A comma-separated list of issues selects the records that either
    side of a comma selects: the values are alternatives. *)
Theorem medical_issues_are_alternatives (patients : list Patient)
    (rest : URLSearchParams) (v1 v2 : string) (patient : Patient) :
  v1 <> "" -> v2 <> "" ->
  (In patient
     (filterPatients patients (("medical_issue", v1 ++ "," ++ v2) :: rest))
   <-> In patient (filterPatients patients (("medical_issue", v1) :: rest))
       \/ In patient (filterPatients patients (("medical_issue", v2) :: rest))).
Proof.
  intros H1 H2. rewrite !passes_filter_In.
  assert (Hp : passes (("medical_issue", v1 ++ "," ++ v2) :: rest) patient
               = passes (("medical_issue", v1) :: rest) patient
                 || passes (("medical_issue", v2) :: rest) patient).
  { unfold passes, search_ok, min_ok, max_ok, issue_ok, age_bound.
    cbn [get String.eqb Ascii.eqb Bool.eqb].
    destruct (String.eqb_spec v1 "") as [|_]; [contradiction|].
    destruct (String.eqb_spec v2 "") as [|_]; [contradiction|].
    replace (String.eqb (v1 ++ "," ++ v2) "") with false
      by (now destruct v1).
    change (v1 ++ "," ++ v2) with (v1 ++ String "," v2).
    rewrite split_app, map_app.
    unfold Array_includes. rewrite existsb_app.
    repeat match goal with
           | |- context [match ?x with _ => _ end] => destruct x
           end;
      repeat match goal with
             | |- context [?a && ?b] => destruct a; cbn [andb orb]
             | |- context [?a || ?b] => destruct a; cbn [andb orb]
             end; trivial. }
  rewrite Hp, orb_true_iff. tauto.
Qed.

Lemma medical_issues_are_alternatives_witness :
  In (pt 2 25 "Ben" "rash")
    (filterPatients ages_example [("medical_issue", "fever" ++ "," ++ "rash")])
  <-> In (pt 2 25 "Ben" "rash")
        (filterPatients ages_example [("medical_issue", "fever")])
      \/ In (pt 2 25 "Ben" "rash")
           (filterPatients ages_example [("medical_issue", "rash")]).
Proof.
  apply (medical_issues_are_alternatives ages_example [] "fever" "rash"
           (pt 2 25 "Ben" "rash")); discriminate.
Defined.

(** ** The search term *)

Lemma prefix_spec (a b : string) :
  String.prefix a b = true <-> exists c, b = a ++ c.
Proof.
  revert b. induction a as [|x a IH]; intros b; simpl.
  - destruct b; split; eauto.
  - destruct b as [|y b].
    + split; [discriminate|]. intros [c H]. discriminate.
    + simpl. destruct (ascii_dec x y) as [->|Hne].
      * rewrite IH. split; intros [c H]; exists c; simpl; congruence.
      * split; [discriminate|]. intros [c H]. simpl in H. congruence.
Qed.

(** [includes] holds exactly of the strings that contain the term. *)
Lemma includes_spec (s sub : string) :
  includes s sub = true <-> exists pre post, s = pre ++ sub ++ post.
Proof.
  induction s as [|c s IH]; cbn [includes].
  - rewrite orb_false_r, prefix_spec. split.
    + intros [post H]. now exists "", post.
    + intros [pre [post H]]. destruct pre; [|discriminate].
      now exists post.
  - rewrite orb_true_iff, prefix_spec, IH. split.
    + intros [[post H]|[pre [post H]]].
      * now exists "", post.
      * exists (String c pre), post. simpl. now rewrite H.
    + intros [pre [post H]]. destruct pre as [|x pre].
      * left. now exists post.
      * right. exists pre, post. simpl in H. congruence.
Qed.

Lemma toLowerCase_empty (s : string) : toLowerCase s = "" <-> s = "".
Proof. destruct s; simpl; split; congruence. Qed.

(** A search term selects exactly the records whose name or medical
    issue, letter case apart, contains the term. *)
Theorem search_matches_substrings (patients : list Patient) (s : string)
    (patient : Patient) :
  s <> "" ->
  (In patient (filterPatients patients [("search", s)])
   <-> In patient patients
       /\ ((exists pre post,
               toLowerCase (patient_name patient)
               = pre ++ toLowerCase s ++ post)
           \/ (exists pre post,
                  toLowerCase (medical_issue patient)
                  = pre ++ toLowerCase s ++ post))).
Proof.
  intros Hs. rewrite passes_filter_In, <- !includes_spec, <- orb_true_iff.
  unfold passes, search_ok, min_ok, max_ok, issue_ok, age_bound. simpl.
  destruct (String.eqb_spec (toLowerCase s) "") as [E|_].
  - apply (proj1 (toLowerCase_empty s)) in E. contradiction.
  - now rewrite !andb_true_r.
Qed.

Lemma search_matches_substrings_witness :
  In (pt 3 30 "Cara" "fever") (filterPatients ages_example [("search", "AR")])
  <-> In (pt 3 30 "Cara" "fever") ages_example
      /\ ((exists pre post,
              toLowerCase (patient_name (pt 3 30 "Cara" "fever"))
              = pre ++ toLowerCase "AR" ++ post)
          \/ (exists pre post,
                 toLowerCase (medical_issue (pt 3 30 "Cara" "fever"))
                 = pre ++ toLowerCase "AR" ++ post)).
Proof.
  apply (search_matches_substrings ages_example "AR" (pt 3 30 "Cara" "fever")).
  discriminate.
Defined.

(** * Further properties of the sort stage *)

(** Whatever the sort field, the direction and the comparison of names,
    sorting neither drops nor repeats a record. *)
Theorem sort_keeps_every_record (localeCompare : string -> string -> Z)
    (patients : list Patient) (sortBy sortOrder : option string) :
  Permutation patients
    (sortPatients localeCompare patients sortBy sortOrder).
Proof.
  unfold sortPatients.
  destruct sortBy as [sb|]; [|apply Permutation_refl].
  destruct (truthy (Some sb)).
  - apply Array_sort_perm.
  - apply Permutation_refl.
Qed.

Lemma sortPatients_In (localeCompare : string -> string -> Z)
    (patients : list Patient) (sortBy sortOrder : option string)
    (patient : Patient) :
  In patient (sortPatients localeCompare patients sortBy sortOrder) ->
  In patient patients.
Proof.
  unfold sortPatients. destruct sortBy as [sb|]; trivial.
  destruct (truthy (Some sb)); trivial.
  apply Permutation_in, Permutation_sym, Array_sort_perm.
Qed.

Lemma sort_insert_ext {A : Type} (cmp cmp' : A -> A -> Z) (x : A)
    (xs : list A) :
  (forall a b, cmp a b = cmp' a b) ->
  sort_insert cmp x xs = sort_insert cmp' x xs.
Proof.
  intros H. induction xs as [|y ys IH]; simpl; trivial.
  now rewrite H, IH.
Qed.

Lemma Array_sort_ext {A : Type} (cmp cmp' : A -> A -> Z) (xs : list A) :
  (forall a b, cmp a b = cmp' a b) ->
  Array_sort cmp xs = Array_sort cmp' xs.
Proof.
  intros H. induction xs as [|x xs IH]; simpl; trivial.
  rewrite IH. now apply sort_insert_ext.
Qed.

Lemma Array_sort_unknown (localeCompare : string -> string -> Z)
    (patients : list Patient) (sortBy : string) (sortOrder : option string) :
  sortBy <> "age" -> sortBy <> "patient_name" ->
  Array_sort (compareFn localeCompare sortBy sortOrder) patients = patients.
Proof.
  intros Hage Hname.
  rewrite (Array_sort_ext _ (fun _ _ => 0)); [apply Array_sort_ties|].
  intros a b. unfold compareFn.
  destruct (String.eqb_spec sortBy "age"); [contradiction|].
  destruct (String.eqb_spec sortBy "patient_name"); [contradiction|].
  reflexivity.
Qed.

(** A sort field that is absent, empty or not one the comparison knows
    leaves the records in the order they came. *)
Theorem unknown_sort_field_keeps_order
    (localeCompare : string -> string -> Z)
    (patients : list Patient) (sortBy sortOrder : option string) :
  sortBy <> Some "age" -> sortBy <> Some "patient_name" ->
  sortPatients localeCompare patients sortBy sortOrder = patients.
Proof.
  intros Hage Hname. unfold sortPatients.
  destruct sortBy as [sb|]; trivial.
  destruct (truthy (Some sb)); trivial.
  apply Array_sort_unknown; congruence.
Qed.

Lemma unknown_sort_field_keeps_order_witness :
  sortPatients sample_collation ages_example (Some "height") (Some "desc")
  = ages_example.
Proof.
  apply (unknown_sort_field_keeps_order sample_collation ages_example
           (Some "height") (Some "desc")); discriminate.
Defined.

Lemma Permutation_filter {A : Type} (f : A -> bool) (xs ys : list A) :
  Permutation xs ys -> Permutation (filter f xs) (filter f ys).
Proof.
  induction 1 as [|x xs ys _ IH|x y xs|xs ys zs _ IH1 _ IH2]; simpl.
  - apply perm_nil.
  - destruct (f x); [now apply perm_skip|trivial].
  - destruct (f x), (f y); try apply Permutation_refl. apply perm_swap.
  - now apply perm_trans with (filter f ys).
Qed.

Lemma StronglySorted_filter {A : Type} (R : A -> A -> Prop) (f : A -> bool)
    (xs : list A) :
  StronglySorted R xs -> StronglySorted R (filter f xs).
Proof.
  induction 1 as [|x xs Hs IH Hall]; simpl; [constructor|].
  destruct (f x); trivial. constructor; trivial.
  rewrite Forall_forall in *. intros y Hy.
  apply filter_In in Hy. now apply Hall.
Qed.

Lemma StronglySorted_skipn {A : Type} (R : A -> A -> Prop) (n : nat)
    (xs : list A) :
  StronglySorted R xs -> StronglySorted R (skipn n xs).
Proof.
  revert xs. induction n as [|n IH]; intros xs Hs; simpl; trivial.
  destruct xs as [|x xs]; trivial.
  apply IH. now apply StronglySorted_inv in Hs.
Qed.

Lemma In_firstn {A : Type} (n : nat) (xs : list A) (x : A) :
  In x (firstn n xs) -> In x xs.
Proof.
  intros H. rewrite <- (firstn_skipn n xs). apply in_or_app. now left.
Qed.

Lemma In_skipn {A : Type} (n : nat) (xs : list A) (x : A) :
  In x (skipn n xs) -> In x xs.
Proof.
  intros H. rewrite <- (firstn_skipn n xs). apply in_or_app. now right.
Qed.

Lemma StronglySorted_firstn {A : Type} (R : A -> A -> Prop) (n : nat)
    (xs : list A) :
  StronglySorted R xs -> StronglySorted R (firstn n xs).
Proof.
  revert xs. induction n as [|n IH]; intros xs Hs; simpl; [constructor|].
  destruct xs as [|x xs]; [constructor|].
  apply StronglySorted_inv in Hs. destruct Hs as [Hs Hall].
  constructor; [now apply IH|].
  rewrite Forall_forall in *. intros y Hy. apply Hall.
  now apply In_firstn in Hy.
Qed.

Lemma In_slice {A : Type} (xs : list A) (start end_ : number) (x : A) :
  In x (slice xs start end_) -> In x xs.
Proof. unfold slice. intros H. now apply In_firstn, In_skipn in H. Qed.

Section SortStageMore.

Variable localeCompare : string -> string -> Z.
Hypothesis locale_ok : consistent localeCompare.

Lemma Array_sort_strongly (cmp : Patient -> Patient -> Z)
    (patients : list Patient) :
  consistent cmp ->
  StronglySorted (fun a b => cmp a b <= 0) (Array_sort cmp patients).
Proof.
  intros Hc. apply Sorted_StronglySorted.
  - intros x y z. apply (proj2 Hc).
  - now apply Array_sort_sorted.
Qed.

Lemma sort_filter_commute (cmp : Patient -> Patient -> Z)
    (f : Patient -> bool) (patients : list Patient) :
  consistent cmp ->
  Array_sort cmp (filter f patients) = filter f (Array_sort cmp patients).
Proof.
  intros Hc. symmetry. apply Array_sort_unique; trivial.
  - apply Permutation_filter, Array_sort_perm.
  - apply StronglySorted_Sorted, StronglySorted_filter.
    now apply Array_sort_strongly.
  - intros x. rewrite !filter_filter.
    rewrite (filter_ext _ (fun y => (cmp x y =? 0) && f y))
      by (intros; apply andb_comm).
    rewrite (filter_ext (fun y => f y && (cmp x y =? 0))
               (fun y => (cmp x y =? 0) && f y))
      by (intros; apply andb_comm).
    rewrite <- !filter_filter. now rewrite Array_sort_stable.
Qed.

Lemma ties_same_direction (sortBy : string) (o1 o2 : option string)
    (x y : Patient) :
  sortBy = "age" \/ sortBy = "patient_name" ->
  (compareFn localeCompare sortBy o2 x y =? 0)
  = (compareFn localeCompare sortBy o1 x y =? 0).
Proof.
  intros Hby. rewrite !compareFn_key by trivial.
  set (k := key_compare localeCompare sortBy x y).
  destruct (is_desc o1), (is_desc o2); trivial;
    destruct (Z.eqb_spec k 0), (Z.eqb_spec (- k) 0); trivial; lia.
Qed.

Lemma resort_any_direction (sortBy : string) (o1 o2 : option string)
    (patients : list Patient) :
  sortBy = "age" \/ sortBy = "patient_name" ->
  Array_sort (compareFn localeCompare sortBy o2)
    (Array_sort (compareFn localeCompare sortBy o1) patients)
  = Array_sort (compareFn localeCompare sortBy o2) patients.
Proof.
  intros Hby.
  apply Array_sort_unique.
  - now apply compareFn_consistent.
  - eapply perm_trans; apply Array_sort_perm.
  - apply Array_sort_sorted. now apply compareFn_consistent.
  - intros x.
    rewrite Array_sort_stable by now apply compareFn_consistent.
    rewrite !(filter_ext _ _ (fun y => ties_same_direction sortBy o1 o2 x y Hby)).
    apply Array_sort_stable. now apply compareFn_consistent.
Qed.

End SortStageMore.

(** Sorting what was sorted already by the same field, in the same or in
    the other direction, gives what sorting the original gives: a second
    sort does not depend on the first. *)
Theorem resorting_forgets_previous_sort
    (localeCompare : string -> string -> Z)
    (patients : list Patient) (sortBy : string) (o1 o2 : option string) :
  consistent localeCompare ->
  sortBy = "age" \/ sortBy = "patient_name" ->
  sortPatients localeCompare
    (sortPatients localeCompare patients (Some sortBy) o1) (Some sortBy) o2
  = sortPatients localeCompare patients (Some sortBy) o2.
Proof.
  intros Hlc Hby. rewrite !sortPatients_sort by trivial.
  now apply resort_any_direction.
Qed.

Lemma resorting_forgets_previous_sort_witness :
  sortPatients sample_collation
    (sortPatients sample_collation ages_example (Some "age") (Some "asc"))
    (Some "age") (Some "desc")
  = sortPatients sample_collation ages_example (Some "age") (Some "desc").
Proof.
  apply (resorting_forgets_previous_sort sample_collation ages_example
           "age" (Some "asc") (Some "desc") sample_collation_consistent
           (or_introl eq_refl)).
Defined.

(** Filtering and sorting can be done in either order: the sort stage on
    the filtered records gives the filter stage on the sorted records. *)
Theorem filter_and_sort_commute
    (localeCompare : string -> string -> Z)
    (patients : list Patient) (params : URLSearchParams)
    (sortBy sortOrder : option string) :
  consistent localeCompare ->
  sortPatients localeCompare (filterPatients patients params)
    sortBy sortOrder
  = filterPatients (sortPatients localeCompare patients sortBy sortOrder)
      params.
Proof.
  intros Hlc.
  destruct sortBy as [sb|]; [|reflexivity].
  destruct (String.eqb_spec sb "age") as [->|Hage];
    [|destruct (String.eqb_spec sb "patient_name") as [->|Hname]].
  - rewrite !sortPatients_sort by now left.
    rewrite !filterPatients_filter.
    now apply sort_filter_commute, compareFn_consistent.
  - rewrite !sortPatients_sort by now right.
    rewrite !filterPatients_filter.
    now apply sort_filter_commute, compareFn_consistent.
  - unfold sortPatients. destruct (truthy (Some sb)); trivial.
    now rewrite !Array_sort_unknown.
Qed.

Lemma filter_and_sort_commute_witness :
  sortPatients sample_collation
    (filterPatients ages_example [("ageMin", "30")])
    (Some "age") (Some "desc")
  = filterPatients
      (sortPatients sample_collation ages_example (Some "age")
         (Some "desc"))
      [("ageMin", "30")].
Proof.
  apply (filter_and_sort_commute sample_collation ages_example
           [("ageMin", "30")] (Some "age") (Some "desc")
           sample_collation_consistent).
Defined.

(** * Further properties of the paginate stage *)

(** The record at position [i] of page [p] is the record at position
    [(p - 1) * limit + i] of the collection, for [i] below the limit;
    the page has no position from the limit on. *)
Theorem page_record_by_index (patients : list Patient) (p lim : Z)
    (i : nat) :
  1 <= p -> 1 <= lim ->
  nth_error (data (paginateResults patients (Num p) (Num lim))) i
  = if Z.of_nat i <? lim
    then nth_error patients (Z.to_nat ((p - 1) * lim) + i)
    else None.
Proof.
  intros Hp Hl. rewrite paginate_data by lia.
  rewrite nth_error_firstn, nth_error_skipn.
  destruct (Nat.ltb_spec i (Z.to_nat lim)), (Z.ltb_spec (Z.of_nat i) lim);
    trivial; lia.
Qed.

Lemma page_record_by_index_witness :
  nth_error (data (paginateResults ages_example (Num 2) (Num 3))) 0
  = Some (pt 4 40 "Dev" "headache").
Proof.
  rewrite (page_record_by_index ages_example 2 3 0) by lia. reflexivity.
Defined.

(** A page holds limit records as long as that many are left, what is
    left when fewer are, and nothing beyond the end. *)
Theorem page_length_exact (patients : list Patient) (p lim : Z) :
  1 <= p -> 1 <= lim ->
  Z.of_nat (List.length (data (paginateResults patients (Num p) (Num lim))))
  = Z.min lim (Z.max 0 (Z.of_nat (List.length patients) - (p - 1) * lim)).
Proof.
  intros Hp Hl. rewrite paginate_data by lia.
  rewrite length_firstn, length_skipn. nia.
Qed.

Lemma page_length_exact_witness :
  Z.of_nat (List.length (data (paginateResults ages_example (Num 2) (Num 3))))
  = Z.min 3 (Z.max 0 (Z.of_nat (List.length ages_example) - (2 - 1) * 3)).
Proof. apply (page_length_exact ages_example 2 3); lia. Defined.

Lemma StronglySorted_nth {A : Type} (R : A -> A -> Prop) (xs : list A)
    (i j : nat) (a b : A) :
  StronglySorted R xs -> (i < j)%nat ->
  nth_error xs i = Some a -> nth_error xs j = Some b -> R a b.
Proof.
  intros Hs. revert i j. induction Hs as [|x xs Hs IH Hall]; intros i j Hij Ha Hb.
  - destruct i; discriminate.
  - destruct j as [|j]; [lia|]. simpl in Hb.
    destruct i as [|i]; simpl in Ha.
    + injection Ha as ->. rewrite Forall_forall in Hall.
      apply Hall. eapply nth_error_In, Hb.
    + apply (IH i j); trivial. lia.
Qed.

(** The pages follow the sort order: the records of a page are in order,
    and no record of a later page comes before a record of an earlier
    page. *)
Theorem pages_follow_sort_order
    (localeCompare : string -> string -> Z)
    (patients : list Patient) (sortBy : string) (sortOrder : option string)
    (p q lim : Z) :
  consistent localeCompare ->
  sortBy = "age" \/ sortBy = "patient_name" ->
  1 <= p < q -> 1 <= lim ->
  Sorted (in_order localeCompare sortBy sortOrder)
    (data (paginateResults
             (sortPatients localeCompare patients (Some sortBy) sortOrder)
             (Num p) (Num lim)))
  /\ (forall a b,
         In a (data (paginateResults
                       (sortPatients localeCompare patients (Some sortBy)
                          sortOrder)
                       (Num p) (Num lim))) ->
         In b (data (paginateResults
                       (sortPatients localeCompare patients (Some sortBy)
                          sortOrder)
                       (Num q) (Num lim))) ->
         in_order localeCompare sortBy sortOrder a b).
Proof.
  intros Hlc Hby Hpq Hl.
  rewrite sortPatients_sort by trivial.
  set (cmp := compareFn localeCompare sortBy sortOrder).
  assert (Hc : consistent cmp) by now apply compareFn_consistent.
  pose proof (Array_sort_strongly cmp patients Hc) as Hs.
  assert (Hin : forall a b, cmp a b <= 0 ->
                            in_order localeCompare sortBy sortOrder a b).
  { intros a b. unfold cmp, in_order. rewrite compareFn_key by trivial.
    destruct (is_desc sortOrder); lia. }
  split.
  - rewrite paginate_data by lia.
    eapply Sorted_weaken; [exact Hin|].
    apply StronglySorted_Sorted, StronglySorted_firstn, StronglySorted_skipn.
    exact Hs.
  - intros a b Ha Hb. apply Hin.
    apply In_nth_error in Ha, Hb. destruct Ha as [i Ha], Hb as [j Hb].
    rewrite paginate_data in Ha, Hb by lia.
    rewrite nth_error_firstn, nth_error_skipn in Ha, Hb.
    destruct (Nat.ltb_spec i (Z.to_nat lim)); [|discriminate].
    destruct (Nat.ltb_spec j (Z.to_nat lim)); [|discriminate].
    eapply (StronglySorted_nth _ _ _ _ a b Hs); [|exact Ha|exact Hb].
    nia.
Qed.

Lemma pages_follow_sort_order_witness :
  in_order sample_collation "age" (Some "desc")
    (pt 1 30 "Asha" "fever") (pt 2 25 "Ben" "rash").
Proof.
  apply (proj2 (pages_follow_sort_order sample_collation ages_example
                  "age" (Some "desc") 1 2 2 sample_collation_consistent
                  (or_introl eq_refl) ltac:(lia) ltac:(lia))).
  - vm_compute. auto.
  - vm_compute. auto.
Defined.

(** * Further properties of the handler *)

(** When the handler answers 200, the total of the metadata is the number
    of records of the data file that pass the filters, whatever the page,
    the limit and the sort; and every record of the answer is a record of
    the data file that passes the filters. *)
Theorem GET_answers_matching_records
    (localeCompare : string -> string -> Z)
    (patients_json : option (list Patient)) (params : URLSearchParams) :
  status (snd (GET localeCompare patients_json params)) = 200 ->
  exists allPatients r,
    patients_json = Some allPatients
    /\ body (snd (GET localeCompare patients_json params)) = ResultBody r
    /\ total (meta r)
       = Num (Z.of_nat (List.length (filter (passes params) allPatients)))
    /\ (forall patient,
           In patient (data r) ->
           In patient allPatients /\ passes params patient = true).
Proof.
  intros H200. destruct (GET_200 _ _ _ H200) as [allPatients [-> E]].
  exists allPatients, (pipeline localeCompare allPatients params).
  rewrite E. cbn [snd body].
  split; [reflexivity|]. split; [reflexivity|]. split.
  - unfold pipeline, paginateResults. cbn [total meta].
    now rewrite sortPatients_length, filterPatients_filter.
  - intros patient H.
    unfold pipeline, paginateResults in H. cbn [data] in H.
    apply In_slice, sortPatients_In in H.
    now apply passes_filter_In in H.
Qed.


(** * The page bar ([Pagination]) *)

Lemma range_empty (a b : Z) : b < a -> Pagination.range a b = [].
Proof.
  intros H. unfold Pagination.range.
  now replace (Z.to_nat (b - a + 1)) with 0%nat by lia.
Qed.

Lemma range_first (a b : Z) :
  a <= b -> Pagination.range a b = a :: Pagination.range (a + 1) b.
Proof.
  intros H. unfold Pagination.range.
  replace (Z.to_nat (b - a + 1)) with (S (Z.to_nat (b - (a + 1) + 1)))
    by lia.
  simpl. f_equal; [lia|].
  rewrite <- seq_shift, map_map. apply map_ext. intros i. lia.
Qed.

(** The seven shapes of the bar when there are more than seven pages. *)
Lemma getPageNumbers_large (cur tp : Z) :
  7 < tp -> 1 <= cur <= tp ->
  Pagination.getPageNumbers cur tp
  = if cur =? 1 then [1; 2; -2; tp]
    else if cur =? 2 then [1; 2; 3; -2; tp]
    else if cur =? 3 then [1; 2; 3; 4; -2; tp]
    else if cur =? tp then [1; -1; tp - 1; tp]
    else if cur =? tp - 1 then [1; -1; tp - 2; tp - 1; tp]
    else if cur =? tp - 2 then [1; -1; tp - 3; tp - 2; tp - 1; tp]
    else [1; -1; cur - 1; cur; cur + 1; -2; tp].
Proof.
  intros Htp Hcur. unfold Pagination.getPageNumbers. cbv zeta.
  destruct (Z.leb_spec tp 7) as [|_]; [lia|].
  destruct (Z.ltb_spec 1 tp) as [_|]; [|lia].
  destruct (Z.eqb_spec cur 1) as [->|H1].
  { simpl. destruct (Z.ltb_spec 1 (tp - 2)); [|lia].
    rewrite (Z.min_r (tp - 1) 2) by lia. reflexivity. }
  destruct (Z.eqb_spec cur 2) as [->|H2].
  { simpl. destruct (Z.ltb_spec 2 (tp - 2)); [|lia].
    rewrite (Z.min_r (tp - 1) 3) by lia. reflexivity. }
  destruct (Z.eqb_spec cur 3) as [->|H3].
  { simpl. destruct (Z.ltb_spec 3 (tp - 2)); [|lia].
    rewrite (Z.min_r (tp - 1) 4) by lia. reflexivity. }
  destruct (Z.ltb_spec 3 cur) as [_|]; [|lia].
  rewrite (Z.max_r 2 (cur - 1)) by lia.
  destruct (Z.eqb_spec cur tp) as [->|H4].
  { destruct (Z.ltb_spec tp (tp - 2)); [lia|].
    rewrite (Z.min_l (tp - 1) (tp + 1)) by lia.
    rewrite range_first, range_empty by lia. reflexivity. }
  destruct (Z.eqb_spec cur (tp - 1)) as [->|H5].
  { destruct (Z.ltb_spec (tp - 1) (tp - 2)); [lia|].
    rewrite (Z.min_l (tp - 1) (tp - 1 + 1)) by lia.
    rewrite range_first by lia.
    replace (tp - 1 - 1 + 1) with (tp - 1) by lia.
    rewrite range_first, range_empty by lia.
    replace (tp - 1 - 1) with (tp - 2) by lia. reflexivity. }
  destruct (Z.eqb_spec cur (tp - 2)) as [->|H6].
  { destruct (Z.ltb_spec (tp - 2) (tp - 2)); [lia|].
    rewrite (Z.min_l (tp - 1) (tp - 2 + 1)) by lia.
    rewrite range_first by lia.
    replace (tp - 2 - 1 + 1) with (tp - 2) by lia.
    rewrite range_first by lia.
    replace (tp - 2 + 1) with (tp - 1) by lia.
    rewrite range_first, range_empty by lia.
    replace (tp - 2 - 1) with (tp - 3) by lia. reflexivity. }
  destruct (Z.ltb_spec cur (tp - 2)); [|lia].
  rewrite (Z.min_r (tp - 1) (cur + 1)) by lia.
  rewrite range_first by lia.
  replace (cur - 1 + 1) with cur by lia.
  rewrite range_first by lia.
  rewrite range_first, range_empty by lia.
  reflexivity.
Qed.

(** With seven pages or fewer the bar lists them all. *)
Lemma getPageNumbers_small (cur tp : Z) :
  1 <= tp <= 7 ->
  Pagination.getPageNumbers cur tp
  = firstn (Z.to_nat tp) [1; 2; 3; 4; 5; 6; 7].
Proof.
  intros H. unfold Pagination.getPageNumbers. cbv zeta.
  destruct (Z.leb_spec tp 7) as [_|]; [|lia].
  assert (E : tp = 1 \/ tp = 2 \/ tp = 3 \/ tp = 4 \/ tp = 5 \/ tp = 6
              \/ tp = 7) by lia.
  destruct E as [->|[->|[->|[->|[->|[->| ->]]]]]]; reflexivity.
Qed.

Ltac page_bar_shapes cur tp :=
  destruct (Z.le_gt_cases tp 7);
  [ rewrite (getPageNumbers_small cur tp) by lia;
    let E := fresh "E" in
    assert (E : tp = 1 \/ tp = 2 \/ tp = 3 \/ tp = 4 \/ tp = 5 \/ tp = 6
                \/ tp = 7) by lia;
    destruct E as [->|[->|[->|[->|[->|[->| ->]]]]]]; cbn [firstn Z.to_nat Pos.to_nat Pos.iter_op Nat.add]
  | rewrite (getPageNumbers_large cur tp) by lia;
    destruct (Z.eqb_spec cur 1);
    [|destruct (Z.eqb_spec cur 2);
      [|destruct (Z.eqb_spec cur 3);
        [|destruct (Z.eqb_spec cur tp);
          [|destruct (Z.eqb_spec cur (tp - 1));
            [|destruct (Z.eqb_spec cur (tp - 2))]]]]] ].

Lemma page_bar_entry_range (cur tp e : Z) :
  1 <= cur <= tp ->
  In e (Pagination.getPageNumbers cur tp) ->
  e = -1 \/ e = -2 \/ 1 <= e <= tp.
Proof.
  intros Hcur. page_bar_shapes cur tp.
  all: intros He; simpl in He; lia.
Qed.

(** The page bar, for a current page among the pages: every entry is an
    ellipsis or a page from 1 to totalPages; the first page, the last
    page, the current page and its neighbours are entries; no entry comes
    twice; and there are seven entries at most. *)
Theorem page_bar_entries (cur tp : Z) :
  1 <= cur <= tp ->
  (forall e, In e (Pagination.getPageNumbers cur tp) ->
             e = -1 \/ e = -2 \/ 1 <= e <= tp)
  /\ In 1 (Pagination.getPageNumbers cur tp)
  /\ In cur (Pagination.getPageNumbers cur tp)
  /\ In tp (Pagination.getPageNumbers cur tp)
  /\ (1 <= cur - 1 -> In (cur - 1) (Pagination.getPageNumbers cur tp))
  /\ (cur + 1 <= tp -> In (cur + 1) (Pagination.getPageNumbers cur tp))
  /\ NoDup (Pagination.getPageNumbers cur tp)
  /\ (List.length (Pagination.getPageNumbers cur tp) <= 7)%nat.
Proof.
  intros Hcur. page_bar_shapes cur tp.
  all: repeat match goal with |- _ /\ _ => split end.
  all: try (intros e He; simpl in He; lia).
  all: try (simpl; lia).
  all: repeat constructor; simpl; lia.
Qed.

Lemma page_bar_entries_witness :
  In 5 (Pagination.getPageNumbers 5 12)
  /\ In 12 (Pagination.getPageNumbers 5 12)
  /\ NoDup (Pagination.getPageNumbers 5 12).
Proof.
  pose proof (page_bar_entries 5 12 ltac:(lia))
    as [_ [_ [Hcur [Hlast [_ [_ [Hnd _]]]]]]].
  repeat split; assumption.
Defined.

(** In the page bar, two page entries next to each other are consecutive
    pages, and an ellipsis between two page entries stands for one hidden
    page or more: no page is left out unmarked. *)
Theorem page_bar_marks_every_gap (cur tp : Z) :
  1 <= cur <= tp ->
  Pagination.gaps_marked (Pagination.getPageNumbers cur tp)
  /\ Pagination.ellipsis_hides (Pagination.getPageNumbers cur tp).
Proof.
  intros Hcur. page_bar_shapes cur tp.
  all: simpl; repeat split; lia.
Qed.

Lemma page_bar_marks_every_gap_witness :
  Pagination.gaps_marked (Pagination.getPageNumbers 5 12)
  /\ Pagination.ellipsis_hides (Pagination.getPageNumbers 5 12).
Proof. apply (page_bar_marks_every_gap 5 12). lia. Defined.

(** Whatever is clicked in the page bar, a page entry, Previous or Next,
    the page handed on lies between 1 and totalPages; Previous on the
    first page and Next on the last hand nothing on. *)
Theorem page_bar_stays_in_range (cur tp : Z) :
  1 <= cur <= tp ->
  (forall q,
      Pagination.handlePrevious cur = Some q
      \/ Pagination.handleNext cur tp = Some q
      \/ (exists e, In e (Pagination.getPageNumbers cur tp)
                    /\ Pagination.handleEntry e = Some q) ->
      1 <= q <= tp)
  /\ (cur = 1 -> Pagination.handlePrevious cur = None)
  /\ (cur = tp -> Pagination.handleNext cur tp = None).
Proof.
  intros Hcur. split; [|split].
  - intros q [H|[H|[e [He H]]]].
    + unfold Pagination.handlePrevious in H.
      destruct (Z.ltb_spec 1 cur); [|discriminate].
      injection H as <-. lia.
    + unfold Pagination.handleNext in H.
      destruct (Z.ltb_spec cur tp); [|discriminate].
      injection H as <-. lia.
    + apply (page_bar_entry_range cur tp e Hcur) in He.
      unfold Pagination.handleEntry in H.
      destruct (Z.eqb_spec e (-1)); [discriminate|].
      destruct (Z.eqb_spec e (-2)); [discriminate|].
      injection H as <-. lia.
  - intros ->. reflexivity.
  - intros ->. unfold Pagination.handleNext.
    now rewrite Z.ltb_irrefl.
Qed.

Lemma page_bar_stays_in_range_witness :
  Pagination.handleNext 5 12 = Some 6 /\ 1 <= 6 <= 12.
Proof.
  split; [reflexivity|].
  apply (proj1 (page_bar_stays_in_range 5 12 ltac:(lia)) 6).
  right. left. reflexivity.
Defined.

(** * The sort control ([SortDropdown]) *)

(** The sort control hands on only sort states the handler accepts, a
    sortable field with asc or desc, or no field with asc; and the value
    the select shows for such a state is the value that gives the state
    back, the direction of a state with no field being reset to asc. *)
Theorem sort_control_round_trip :
  (forall value,
      (In (sort_sortBy (SortDropdown.handleSortChange value)) validSortFields
       /\ In (sort_sortOrder (SortDropdown.handleSortChange value))
            validSortOrders)
      \/ SortDropdown.handleSortChange value = mkSortState "" "asc")
  /\ (forall sortBy sortOrder,
         In sortBy validSortFields -> In sortOrder validSortOrders ->
         SortDropdown.handleSortChange
           (SortDropdown.selectValue (mkSortState sortBy sortOrder))
         = mkSortState sortBy sortOrder)
  /\ (forall sortOrder,
         SortDropdown.handleSortChange
           (SortDropdown.selectValue (mkSortState "" sortOrder))
         = mkSortState "" "asc").
Proof.
  split; [|split].
  - intros value. unfold SortDropdown.handleSortChange.
    repeat match goal with
           | |- context [String.eqb value ?s] => destruct (String.eqb value s)
           end; simpl; auto.
  - intros sortBy sortOrder [<-|[<-|[]]] [<-|[<-|[]]]; reflexivity.
  - intros sortOrder. reflexivity.
Qed.

Lemma sort_control_round_trip_witness :
  SortDropdown.handleSortChange
    (SortDropdown.selectValue (mkSortState "age" "desc"))
  = mkSortState "age" "desc".
Proof.
  apply (proj1 (proj2 sort_control_round_trip) "age" "desc");
    simpl; auto.
Defined.

(** * Reading integers ([parseInt]) *)

Lemma digit_val_digit (c : ascii) :
  SearchFilterBar.is_digit c = true ->
  exists d, digit_val 10 c = Some d /\ 0 <= d < 10.
Proof.
  destruct c as [[] [] [] [] [] [] [] []]; intros H; try discriminate H.
  all: match goal with
       | |- exists d, digit_val 10 ?c = _ /\ _ =>
           exists (Z.of_N (N_of_ascii c) - 48)
       end; split; [reflexivity|simpl; lia].
Qed.

Lemma digit_val_not_digit (c : ascii) :
  SearchFilterBar.is_digit c = false -> digit_val 10 c = None.
Proof.
  destruct c as [[] [] [] [] [] [] [] []]; intros H; try discriminate H;
    reflexivity.
Qed.

Lemma digit_no_radix_mark (c : ascii) (s : string) :
  SearchFilterBar.is_digit c = true -> no_radix_mark (String c s) = true.
Proof.
  destruct c as [[] [] [] [] [] [] [] []]; intros H; try discriminate H;
    reflexivity.
Qed.

Lemma ends_number_no_radix_mark (rest : string) :
  ends_number rest = true -> no_radix_mark rest = true.
Proof.
  destruct rest as [|c s]; simpl; trivial.
  intros H. apply andb_true_iff in H. destruct H as [H HX].
  apply andb_true_iff in H. destruct H as [_ Hx]. now rewrite Hx, HX.
Qed.

(** Once a digit has been read, [parse_digits] has a value. *)
Lemma parse_digits_Some (radix a : Z) (s : string) :
  exists v, parse_digits radix (Some a) s = Some v.
Proof.
  revert a. induction s as [|c s IH]; intros a; simpl; eauto.
  destruct (digit_val radix c); eauto.
Qed.

Lemma parse_digits_None (radix : Z) (s : string) :
  parse_digits radix None s = None
  <-> match s with
      | EmptyString => True
      | String c _ => digit_val radix c = None
      end.
Proof.
  destruct s as [|c s]; simpl; [tauto|].
  destruct (digit_val radix c) as [d|]; [|tauto].
  destruct (parse_digits_Some radix (radix * 0 + d) s) as [v ->].
  split; discriminate.
Qed.

(** Reading stops where the number ends. *)
Lemma parse_digits_ends (acc : option Z) (rest : string) :
  ends_number rest = true -> parse_digits 10 acc rest = acc.
Proof.
  destruct rest as [|c s]; simpl; trivial.
  intros H. apply andb_true_iff in H. destruct H as [H _].
  apply andb_true_iff in H. destruct H as [H _].
  apply negb_true_iff in H. now rewrite (digit_val_not_digit c H).
Qed.

Lemma parse_digits_every_digit (s : string) (acc : option Z) :
  SearchFilterBar.every_digit s = true ->
  match acc with Some a => 0 <= a | None => s <> "" end ->
  exists v, parse_digits 10 acc s = Some v /\ 0 <= v.
Proof.
  revert acc. induction s as [|c s IH]; intros acc Hs Hacc.
  - destruct acc as [a|]; [|contradiction]. now exists a.
  - simpl in Hs. apply andb_true_iff in Hs. destruct Hs as [Hc Hs].
    destruct (digit_val_digit c Hc) as [d [Hd Hrange]].
    cbn [parse_digits]. rewrite Hd. apply IH; trivial.
    destruct acc as [a|]; lia.
Qed.

(** [parseInt] gives [NaN] exactly on the texts that do not begin with an
    integer. *)
Lemma parseInt_NaN_iff (s : string) :
  parseInt s = NaN <-> leads_with_integer s = false.
Proof.
  unfold parseInt, leads_with_integer.
  destruct (match trimStart s with
            | String "-" s' => (-1, s')
            | String "+" s' => (1, s')
            | _ => (1, trimStart s)
            end) as [sign s1].
  destruct (match s1 with
            | String "0" (String "x" s') => (16, s')
            | String "0" (String "X" s') => (16, s')
            | _ => (10, s1)
            end) as [radix s2].
  destruct (parse_digits radix None s2) as [v|] eqn:E.
  - destruct s2 as [|c s3]; [discriminate E|].
    destruct (digit_val radix c) as [d|] eqn:Ed.
    + pose proof (to_double_not_NaN (sign * v)) as Hn.
      split; [|discriminate]. intros H. rewrite H in Hn. discriminate.
    + simpl in E. rewrite Ed in E. discriminate.
  - apply parse_digits_None in E.
    destruct s2 as [|c s3]; [tauto|]. rewrite E. tauto.
Qed.

(** On a text that starts with a digit and does not go on with the x of
    a radix prefix, [parseInt] neither trims, nor reads a sign, nor
    changes the radix. *)
Lemma parseInt_digit_start (c : ascii) (s : string) :
  SearchFilterBar.is_digit c = true ->
  no_radix_mark s = true ->
  parseInt (String c s)
  = match parse_digits 10 None (String c s) with
    | None => NaN
    | Some v => to_double (1 * v)
    end.
Proof.
  intros Hc Hs.
  destruct c as [[] [] [] [] [] [] [] []]; try discriminate Hc.
  all: destruct s as [|c' s]; [reflexivity|].
  all: destruct c' as [[] [] [] [] [] [] [] []]; try discriminate Hs.
  all: reflexivity.
Qed.

(** A leading minus sign before such a text is read as the sign. *)
Lemma parseInt_minus_digits (c : ascii) (s : string) :
  SearchFilterBar.is_digit c = true ->
  no_radix_mark s = true ->
  parseInt (String "-" (String c s))
  = match parse_digits 10 None (String c s) with
    | None => NaN
    | Some v => to_double (- 1 * v)
    end.
Proof.
  intros Hc Hs.
  destruct c as [[] [] [] [] [] [] [] []]; try discriminate Hc.
  all: destruct s as [|c' s]; [reflexivity|].
  all: destruct c' as [[] [] [] [] [] [] [] []]; try discriminate Hs.
  all: reflexivity.
Qed.

Lemma parseInt_all_digits (value : string) :
  SearchFilterBar.all_digits value = true ->
  exists v, 0 <= v /\ parseInt value = to_double v.
Proof.
  unfold SearchFilterBar.all_digits. intros H.
  apply andb_true_iff in H. destruct H as [Hne Hd].
  destruct value as [|c s]; [discriminate|].
  pose proof Hd as Hd'. simpl in Hd'. apply andb_true_iff in Hd'.
  destruct Hd' as [Hc Hs].
  rewrite parseInt_digit_start; trivial.
  - destruct (parse_digits_every_digit (String c s) None Hd) as [v [-> Hv]];
      [discriminate|].
    exists (1 * v). split; [lia|reflexivity].
  - destruct s as [|c' s']; trivial.
    simpl in Hs. apply andb_true_iff in Hs. destruct Hs as [Hc' _].
    now apply digit_no_radix_mark.
Qed.

(** ** Printed integers *)

Lemma mod10_digit (n : Z) :
  SearchFilterBar.is_digit (digit_char (n mod 10)) = true
  /\ digit_val 10 (digit_char (n mod 10)) = Some (n mod 10).
Proof.
  pose proof (Z.mod_pos_bound n 10 ltac:(lia)) as H.
  assert (E : n mod 10 = 0 \/ n mod 10 = 1 \/ n mod 10 = 2 \/ n mod 10 = 3
              \/ n mod 10 = 4 \/ n mod 10 = 5 \/ n mod 10 = 6
              \/ n mod 10 = 7 \/ n mod 10 = 8 \/ n mod 10 = 9) by lia.
  destruct E as [->|[->|[->|[->|[->|[->|[->|[->|[->| ->]]]]]]]]];
    split; reflexivity.
Qed.

(** The digits printed in front of [rest] start with a digit, and what
    follows the first is [rest] or starts with a digit too. *)
Lemma decimal_digits_shape (rest : string) (fuel : nat) :
  forall (n : Z) (acc : string),
    (acc = rest
     \/ exists c s, acc = String c s /\ SearchFilterBar.is_digit c = true) ->
    exists c s,
      decimal_digits (S fuel) n acc = String c s
      /\ SearchFilterBar.is_digit c = true
      /\ (s = rest
          \/ exists c' s',
               s = String c' s' /\ SearchFilterBar.is_digit c' = true).
Proof.
  induction fuel as [|fuel IH]; intros n acc Hacc.
  - exists (digit_char (n mod 10)), acc. simpl.
    split; [now destruct (n <? 10)|].
    split; [apply mod10_digit|exact Hacc].
  - change (decimal_digits (S (S fuel)) n acc)
      with (if n <? 10
            then String (digit_char (n mod 10)) acc
            else decimal_digits (S fuel) (n / 10)
                   (String (digit_char (n mod 10)) acc)).
    destruct (n <? 10).
    + exists (digit_char (n mod 10)), acc.
      split; [reflexivity|]. split; [apply mod10_digit|exact Hacc].
    + apply IH. right. exists (digit_char (n mod 10)), acc.
      split; [reflexivity|apply mod10_digit].
Qed.

(** Reading the digits that were printed gives the number back, in front
    of whatever was read before and before whatever follows. *)
Lemma parse_decimal_digits (fuel : nat) :
  forall (n : Z) (rest : string),
    0 <= n < 2 ^ (Z.of_nat (S fuel)) ->
    exists k, 0 <= k /\
      forall acc,
        parse_digits 10 acc (decimal_digits (S fuel) n rest)
        = parse_digits 10
            (Some (10 ^ k * match acc with Some a => a | None => 0 end + n))
            rest.
Proof.
  induction fuel as [|fuel IH]; intros n rest Hn.
  - assert (n < 10) by (change (2 ^ Z.of_nat 1) with 2 in Hn; lia).
    exists 1. split; [lia|]. intros acc.
    cbn [decimal_digits].
    destruct (Z.ltb_spec n 10); [|lia].
    cbn [parse_digits]. rewrite (proj2 (mod10_digit n)).
    rewrite Z.mod_small by lia. reflexivity.
  - change (decimal_digits (S (S fuel)) n rest)
      with (if n <? 10
            then String (digit_char (n mod 10)) rest
            else decimal_digits (S fuel) (n / 10)
                   (String (digit_char (n mod 10)) rest)).
    destruct (Z.ltb_spec n 10) as [Hlt|Hge].
    + exists 1. split; [lia|]. intros acc.
      cbn [parse_digits]. rewrite (proj2 (mod10_digit n)).
      rewrite Z.mod_small by lia. reflexivity.
    + assert (Hdiv : 0 <= n / 10 < 2 ^ Z.of_nat (S fuel)).
      { split; [apply Z.div_pos; lia|].
        apply Z.div_lt_upper_bound; [lia|].
        replace (Z.of_nat (S (S fuel))) with (Z.succ (Z.of_nat (S fuel)))
          in Hn by lia.
        rewrite Z.pow_succ_r in Hn by lia.
        assert (0 < 2 ^ Z.of_nat (S fuel)) by (apply Z.pow_pos_nonneg; lia).
        lia. }
      destruct (IH (n / 10) (String (digit_char (n mod 10)) rest)
                  Hdiv) as [k [Hk Hparse]].
      exists (Z.succ k). split; [lia|]. intros acc.
      rewrite Hparse. cbn [parse_digits].
      rewrite (proj2 (mod10_digit n)). f_equal. f_equal.
      rewrite Z.pow_succ_r by lia.
      pose proof (Z.div_mod n 10 ltac:(lia)). lia.
Qed.

Lemma log2_fuel (z : Z) : 0 <= z -> z < 2 ^ Z.of_nat (S (Z.to_nat (Z.log2 z))).
Proof.
  intros Hz. pose proof (Z.log2_nonneg z) as Hl.
  replace (Z.of_nat (S (Z.to_nat (Z.log2 z)))) with (Z.succ (Z.log2 z))
    by lia.
  destruct (Z.eq_dec z 0) as [->|Hne]; [reflexivity|].
  apply Z.log2_spec. lia.
Qed.

Lemma parseInt_decimal_digits (z : Z) (rest : string) :
  0 <= z ->
  ends_number rest = true ->
  parseInt (decimal_digits (S (Z.to_nat (Z.log2 z))) z rest) = to_double z.
Proof.
  intros Hz Hrest. set (fuel := Z.to_nat (Z.log2 z)).
  destruct (decimal_digits_shape rest fuel z rest (or_introl eq_refl))
    as [c [s [E [Hc Hs]]]].
  destruct (parse_decimal_digits fuel z rest) as [k [Hk Hparse]].
  { split; [lia|]. now apply log2_fuel. }
  specialize (Hparse None). rewrite E in *.
  rewrite parseInt_digit_start; trivial.
  - rewrite Hparse, parse_digits_ends by trivial. f_equal. lia.
  - destruct Hs as [->|[c' [s' [-> Hc']]]];
      [now apply ends_number_no_radix_mark|now apply digit_no_radix_mark].
Qed.

(** An integer written out in decimal is read back by [parseInt] as the
    nearest double, whatever follows the digits. *)
Lemma parseInt_decimal_text_then (d : Z) (rest : string) :
  ends_number rest = true ->
  parseInt (decimal_text_then d rest) = to_double d.
Proof.
  intros Hrest. unfold decimal_text_then.
  destruct (Z.ltb_spec d 0) as [Hneg|Hpos];
    [|now apply parseInt_decimal_digits].
  set (fuel := Z.to_nat (Z.log2 (- d))).
  destruct (decimal_digits_shape rest fuel (- d) rest (or_introl eq_refl))
    as [c [s [E [Hc Hs]]]].
  destruct (parse_decimal_digits fuel (- d) rest) as [k [Hk Hparse]].
  { split; [lia|]. apply log2_fuel. lia. }
  specialize (Hparse None). rewrite E in *.
  rewrite parseInt_minus_digits; trivial.
  - rewrite Hparse, parse_digits_ends by trivial. f_equal. lia.
  - destruct Hs as [->|[c' [s' [-> Hc']]]];
      [now apply ends_number_no_radix_mark|now apply digit_no_radix_mark].
Qed.

Lemma parseInt_decimal_text (d : Z) : parseInt (decimal_text d) = to_double d.
Proof. now apply parseInt_decimal_text_then. Qed.

Lemma decimal_text_not_empty (d : Z) : decimal_text d <> "".
Proof.
  unfold decimal_text, decimal_text_then.
  destruct (d <? 0); [discriminate|].
  destruct (decimal_digits_shape "" (Z.to_nat (Z.log2 d)) d ""
              (or_introl eq_refl)) as [c [s [-> _]]].
  discriminate.
Qed.

Lemma print_every_digit_contract : toString_contract print_every_digit.
Proof. intros z _ Hz. now exists z. Qed.

(** * The age bounds of the filter stage *)

Lemma isNaN_true (n : number) : isNaN n = true -> n = NaN.
Proof. destruct n; trivial; discriminate. Qed.

Lemma min_ok_spec (params : URLSearchParams) (patient : Patient) :
  min_ok params patient = true
  <-> (forall s,
          get params "ageMin" = Some s -> leads_with_integer s = true ->
          num_geb (Num (age patient)) (parseInt s) = true).
Proof.
  unfold min_ok, age_bound.
  destruct (get params "ageMin") as [s|];
    [|split; [discriminate|trivial]].
  destruct (isNaN (parseInt s)) eqn:E.
  - apply isNaN_true, parseInt_NaN_iff in E.
    split; [|trivial]. intros _ s' [= <-] H. congruence.
  - split.
    + intros H s' [= <-] _. exact H.
    + intros H. apply (H s eq_refl).
      destruct (leads_with_integer s) eqn:El; trivial.
      apply parseInt_NaN_iff in El. rewrite El in E. discriminate.
Qed.

Lemma max_ok_spec (params : URLSearchParams) (patient : Patient) :
  max_ok params patient = true
  <-> (forall s,
          get params "ageMax" = Some s -> leads_with_integer s = true ->
          num_leb (Num (age patient)) (parseInt s) = true).
Proof.
  unfold max_ok, age_bound.
  destruct (get params "ageMax") as [s|];
    [|split; [discriminate|trivial]].
  destruct (isNaN (parseInt s)) eqn:E.
  - apply isNaN_true, parseInt_NaN_iff in E.
    split; [|trivial]. intros _ s' [= <-] H. congruence.
  - split.
    + intros H s' [= <-] _. exact H.
    + intros H. apply (H s eq_refl).
      destruct (leads_with_integer s) eqn:El; trivial.
      apply parseInt_NaN_iff in El. rewrite El in E. discriminate.
Qed.

(** C7: a bound is ignored only when it does not begin with an integer.
    [parseInt] reads the integer a text begins with and drops what
    follows, and the test [isNaN] lets the result through: the text of an
    integer followed by anything that is not a digit counts as that
    integer, so ageMin=30abc and ageMin=30.9 both filter by age >= 30,
    where the first is not numeric and the second leaves out a record of
    age 30.  What holds for every request: a record passes the age filter
    iff its age is at least the integer ageMin begins with and at most
    the integer ageMax begins with, when they begin with one; a bound
    that does not begin with an integer changes nothing; and no bound is
    an error, the handler answering 200 when the sort parameters are valid
    and the data loads. *)
Theorem age_bound_read_by_prefix :
  (filterPatients ages_example [("ageMin", "30abc")]
   = [pt 1 30 "Asha" "fever"; pt 3 30 "Cara" "fever";
      pt 4 40 "Dev" "headache"]
   /\ filterPatients ages_example [("ageMin", "30.9")]
      = [pt 1 30 "Asha" "fever"; pt 3 30 "Cara" "fever";
         pt 4 40 "Dev" "headache"]
   /\ filterPatients ages_example (delete [("ageMin", "30abc")] "ageMin")
      = ages_example
   /\ integer_text "30abc" = false
   /\ integer_text "30.9" = false)
  /\ (forall d rest,
         ends_number rest = true ->
         parseInt (decimal_text_then d rest) = to_double d)
  /\ (forall s, parseInt s = NaN <-> leads_with_integer s = false)
  /\ (forall patients params patient,
         In patient (filterPatients patients params)
         <-> In patient patients
             /\ search_ok params patient = true
             /\ (forall s,
                    get params "ageMin" = Some s ->
                    leads_with_integer s = true ->
                    num_geb (Num (age patient)) (parseInt s) = true)
             /\ (forall s,
                    get params "ageMax" = Some s ->
                    leads_with_integer s = true ->
                    num_leb (Num (age patient)) (parseInt s) = true)
             /\ issue_ok params patient = true)
  /\ (forall patients params name s,
         name = "ageMin" \/ name = "ageMax" ->
         get params name = Some s ->
         leads_with_integer s = false ->
         filterPatients patients params
         = filterPatients patients (delete params name))
  /\ (forall localeCompare patients params,
         invalid_sortBy params = false ->
         invalid_sortOrder params = false ->
         GET localeCompare (Some patients) params
         = (all_stages,
            {| body := ResultBody (pipeline localeCompare patients params);
               status := 200 |})).
Proof.
  split; [repeat apply conj; reflexivity|].
  split; [exact parseInt_decimal_text_then|].
  split; [exact parseInt_NaN_iff|].
  split; [|split].
  - intros patients params patient.
    rewrite passes_filter_In. unfold passes.
    rewrite !andb_true_iff, min_ok_spec, max_ok_spec. tauto.
  - intros patients params name s Hname Hget Hlead.
    rewrite !filterPatients_filter. apply filter_ext. intros patient.
    symmetry. apply passes_delete_bound; trivial.
    apply age_bound_None. right. exists s.
    split; [trivial|now apply parseInt_NaN_iff].
  - intros localeCompare patients params Hby Hord. now apply GET_valid.
Qed.

(** * The age inputs ([SearchFilterBar]) *)

(** An age input passes on exactly the empty value and the values made of
    digits only; a value passed on that is not empty is read by the
    handler as a number that is not negative, an integer or, from some
    309 digits on, Infinity: a bound typed into the page is never one the
    filter stage ignores. *)
Theorem age_input_passes_digits_only (value : string) :
  (SearchFilterBar.handleAgeChange value = Some value
   <-> value = "" \/ SearchFilterBar.all_digits value = true)
  /\ (SearchFilterBar.handleAgeChange value = None
      <-> value <> "" /\ SearchFilterBar.all_digits value = false)
  /\ (SearchFilterBar.handleAgeChange value = Some value ->
      value <> "" ->
      (parseInt value = PosInf
       \/ exists z, parseInt value = Num z /\ 0 <= z)
      /\ leads_with_integer value = true).
Proof.
  unfold SearchFilterBar.handleAgeChange.
  destruct (String.eqb_spec value "") as [->|Hne]; cbn [orb].
  - split; [|split].
    + split; auto.
    + split; [discriminate|]. intros [Hn _]. contradiction.
    + intros _ Hn. contradiction.
  - destruct (SearchFilterBar.all_digits value) eqn:Hd; cbn [andb].
    + destruct (parseInt_all_digits value Hd) as [v [Hv Hz]].
      assert (Hread : parseInt value = PosInf
                      \/ exists z, parseInt value = Num z /\ 0 <= z)
        by (rewrite Hz; now apply to_double_nonneg).
      assert (Hgeb : num_geb (parseInt value) (Num 0) = true).
      { destruct Hread as [-> | [z [-> Hpos]]]; [reflexivity|].
        unfold num_geb, num_leb.
        destruct (Z.leb_spec 0 z) as [_|]; [reflexivity|lia]. }
      rewrite Hgeb.
      split; [|split].
      * split; auto.
      * split; [discriminate|]. intros [_ Hf]. discriminate.
      * intros _ _. split; [exact Hread|].
        destruct (leads_with_integer value) eqn:El; trivial.
        apply parseInt_NaN_iff in El.
        destruct Hread as [H | [z [H _]]]; congruence.
    + split; [|split].
      * split; [discriminate|]. intros [Hv|Hf]; [contradiction|discriminate].
      * split; auto.
      * discriminate.
Qed.

Lemma age_input_passes_digits_only_witness :
  (parseInt "42" = PosInf \/ exists z, parseInt "42" = Num z /\ 0 <= z)
  /\ leads_with_integer "42" = true.
Proof.
  apply (proj2 (proj2 (age_input_passes_digits_only "42")));
    [reflexivity|discriminate].
Defined.

(** * The requests of the page component ([HomePage]) *)

(** Printing an integer double below 10^21 and reading it back with
    [parseInt] gives the number, for every printer that meets the
    contract of ECMA-262: the page number the page component sends is the
    page number the handler reads.  From 10^21 on the text has an
    exponent and the contract says nothing. *)
Theorem parseInt_of_toString (Number_toString : number -> string) (z : Z) :
  toString_contract Number_toString ->
  Z.abs z < 10 ^ 21 ->
  to_double z = Num z ->
  parseInt (Number_toString (Num z)) = Num z.
Proof.
  intros Hts Hlt Hz. destruct (Hts z Hlt Hz) as [d [Hd ->]].
  now rewrite parseInt_decimal_text.
Qed.

Lemma parseInt_of_toString_witness :
  print_every_digit (Num 9007199254740992) = "9007199254740992"
  /\ parseInt (print_every_digit (Num 9007199254740992))
     = Num 9007199254740992.
Proof.
  split; [reflexivity|].
  apply (parseInt_of_toString print_every_digit 9007199254740992
           print_every_digit_contract);
    reflexivity.
Defined.

(** What the handler finds under each name in the query of
    [loadPatients]: a filter or a sort field that is empty is not sent. *)
Lemma loadPatients_get (Number_toString : number -> string)
    (currentPage : number) (filters : FilterState) (sort : SortState) :
  let params :=
    HomePage.loadPatients_params Number_toString currentPage filters sort in
  let sent (v : string) := if truthy (Some v) then Some v else None in
  get params "page" = Some (Number_toString currentPage)
  /\ get params "limit" = Some "20"
  /\ get params "search" = sent (filter_search filters)
  /\ get params "ageMin" = sent (filter_ageMin filters)
  /\ get params "ageMax" = sent (filter_ageMax filters)
  /\ get params "medical_issue" = sent (filter_medicalIssue filters)
  /\ get params "sortBy" = sent (sort_sortBy sort)
  /\ get params "sortOrder"
     = (if truthy (Some (sort_sortBy sort)) then Some (sort_sortOrder sort)
        else None).
Proof.
  destruct filters as [s lo hi issue], sort as [sb so].
  unfold HomePage.loadPatients_params.
  cbn [filter_search filter_ageMin filter_ageMax filter_medicalIssue
       sort_sortBy sort_sortOrder].
  destruct (truthy (Some s)), (truthy (Some lo)), (truthy (Some hi)),
    (truthy (Some issue)), (truthy (Some sb)); repeat split.
Qed.

Lemma or_else_sent (v d : string) :
  or_else (if truthy (Some v) then Some v else None) d
  = if String.eqb v "" then d else v.
Proof.
  unfold truthy, or_else. destruct (String.eqb v "") eqn:E; simpl; trivial.
  now rewrite E.
Qed.

Lemma passes_same_gets (params params' : URLSearchParams)
    (patient : Patient) :
  (forall name,
      In name ["search"; "ageMin"; "ageMax"; "medical_issue"] ->
      or_else (get params name) "" = or_else (get params' name) "") ->
  passes params patient = passes params' patient.
Proof.
  intros H.
  assert (Hs : search_ok params patient = search_ok params' patient).
  { unfold search_ok. specialize (H "search" ltac:(simpl; auto)).
    unfold or_else in H.
    destruct (get params "search") as [a|], (get params' "search") as [b|];
      repeat match goal with
             | H : context [String.eqb ?x ""] |- _ =>
                 destruct (String.eqb_spec x ""); subst
             end; subst; simpl; trivial; try congruence;
      repeat match goal with
             | |- context [String.eqb (toLowerCase ?x) ""] =>
                 destruct (String.eqb_spec (toLowerCase x) "") as [E|E];
                 [apply toLowerCase_empty in E; subst|]
             end; trivial; try congruence. }
  assert (Hb : forall name, name = "ageMin" \/ name = "ageMax" ->
                            age_bound params name = age_bound params' name).
  { intros name Hname. unfold age_bound.
    specialize (H name ltac:(simpl; destruct Hname; subst; auto)).
    unfold or_else in H.
    destruct (get params name) as [a|], (get params' name) as [b|];
      repeat match goal with
             | H : context [String.eqb ?x ""] |- _ =>
                 destruct (String.eqb_spec x ""); subst
             end; subst; try reflexivity; try congruence. }
  assert (Hi : issue_ok params patient = issue_ok params' patient).
  { unfold issue_ok. specialize (H "medical_issue" ltac:(simpl; auto)).
    unfold or_else in H.
    destruct (get params "medical_issue") as [a|],
             (get params' "medical_issue") as [b|];
      repeat match goal with
             | H : context [String.eqb ?x ""] |- _ =>
                 destruct (String.eqb_spec x ""); subst
             end; subst; simpl; trivial; try congruence;
      repeat match goal with
             | |- context [String.eqb ?x ""] =>
                 destruct (String.eqb_spec x ""); subst
             end; trivial; try congruence. }
  unfold passes, min_ok, max_ok.
  now rewrite Hs, Hi, (Hb "ageMin"), (Hb "ageMax") by auto.
Qed.

(** The request the page component sends for a page number from 1 on, any
    filters and a sort state of its type is never refused: the handler
    reads the page number sent and the limit 20, and filters by the four
    filter values of the page, an empty one being no filter.  The page
    number is a number of the platform, an integer double, printed by a
    [toString] that meets the contract of ECMA-262. *)
Theorem page_request_is_accepted (Number_toString : number -> string)
    (p : Z) (filters : FilterState) (sort : SortState)
    (patients : list Patient) :
  toString_contract Number_toString ->
  to_double p = Num p ->
  1 <= p < 10 ^ 21 ->
  sort_sortBy sort = "" \/ In (sort_sortBy sort) validSortFields ->
  In (sort_sortOrder sort) validSortOrders ->
  let params :=
    HomePage.loadPatients_params Number_toString (Num p) filters sort in
  invalid_sortBy params = false
  /\ invalid_sortOrder params = false
  /\ GET_page params = Num p
  /\ GET_limit params = Num 20
  /\ filterPatients patients params
     = filterPatients patients
         [("search", filter_search filters);
          ("ageMin", filter_ageMin filters);
          ("ageMax", filter_ageMax filters);
          ("medical_issue", filter_medicalIssue filters)]
  /\ (forall localeCompare patients_json,
         status (snd (GET localeCompare patients_json params)) <> 400).
Proof.
  intros Hts Hdouble Hp Hby Hord. cbv zeta.
  destruct (loadPatients_get Number_toString (Num p) filters sort)
    as (Gpage & Glimit & Gsearch & Gmin & Gmax & Gissue & Gby & Gord).
  cbv zeta in Gsearch, Gmin, Gmax, Gissue, Gby.
  set (params :=
         HomePage.loadPatients_params Number_toString (Num p) filters sort)
    in *.
  assert (Vby : invalid_sortBy params = false).
  { unfold invalid_sortBy. rewrite Gby, or_else_sent.
    destruct Hby as [-> | [<- | [<- | []]]]; reflexivity. }
  assert (Vord : invalid_sortOrder params = false).
  { unfold invalid_sortOrder. rewrite Gord.
    destruct Hby as [-> | [<- | [<- | []]]];
      destruct Hord as [<- | [<- | []]]; reflexivity. }
  split; [exact Vby|]. split; [exact Vord|]. split; [|split; [|split]].
  - unfold GET_page. rewrite Gpage. unfold or_else.
    destruct (Hts p ltac:(lia) Hdouble) as [d [Hd Hprint]].
    rewrite Hprint.
    destruct (String.eqb_spec (decimal_text d) "") as [E|_];
      [now apply decimal_text_not_empty in E|].
    rewrite parseInt_decimal_text, Hd. unfold Math_max, num_leb.
    destruct (Z.leb_spec 1 p); [reflexivity|lia].
  - unfold GET_limit. rewrite Glimit. reflexivity.
  - rewrite !filterPatients_filter. apply filter_ext. intros patient.
    apply passes_same_gets.
    intros name [<-|[<-|[<-|[<-|[]]]]];
      rewrite ?Gsearch, ?Gmin, ?Gmax, ?Gissue, or_else_sent; reflexivity.
  - intros localeCompare patients_json. rewrite GET_valid by trivial.
    destruct patients_json; discriminate.
Qed.

Lemma page_request_is_accepted_witness :
  GET_page (HomePage.loadPatients_params print_every_digit (Num 3)
              (mkFilterState "ann" "" "40" "") (mkSortState "age" "desc"))
  = Num 3.
Proof.
  apply (page_request_is_accepted print_every_digit 3
           (mkFilterState "ann" "" "40" "") (mkSortState "age" "desc")
           ages_example print_every_digit_contract eq_refl);
    simpl; auto; split; reflexivity || discriminate.
Defined.

(** * The plain request *)

Lemma GET_answers_matching_records_witness :
  exists allPatients r,
    Some ages_example = Some allPatients
    /\ body (snd (GET sample_collation (Some ages_example)
                    [("ageMin", "30"); ("limit", "2")]))
       = ResultBody r
    /\ total (meta r)
       = Num (Z.of_nat
                (List.length
                   (filter (passes [("ageMin", "30"); ("limit", "2")])
                      allPatients)))
    /\ (forall patient,
           In patient (data r) ->
           In patient allPatients
           /\ passes [("ageMin", "30"); ("limit", "2")] patient = true).
Proof.
  apply (GET_answers_matching_records sample_collation
           (Some ages_example) [("ageMin", "30"); ("limit", "2")]).
  reflexivity.
Defined.

(** A request with every parameter absent or empty is answered with the
    first 20 records of the data file in the order of the file, as page 1
    with limit 20, whatever the size of the file. *)
Theorem plain_request_first_twenty
    (localeCompare : string -> string -> Z)
    (allPatients : list Patient) (params : URLSearchParams) :
  (forall name, get params name = None \/ get params name = Some "") ->
  GET localeCompare (Some allPatients) params
  = (all_stages,
     {| body :=
          ResultBody
            {| data := firstn 20 allPatients;
               meta :=
                 {| total := Num (Z.of_nat (List.length allPatients));
                    page := Num 1;
                    limit := Num 20;
                    totalPages :=
                      Num (ceil_div (Z.of_nat (List.length allPatients)) 20)
                 |} |};
        status := 200 |}).
Proof.
  intros H.
  assert (Hby : invalid_sortBy params = false).
  { unfold invalid_sortBy. destruct (H "sortBy") as [-> | ->]; reflexivity. }
  assert (Hord : invalid_sortOrder params = false).
  { unfold invalid_sortOrder.
    destruct (H "sortOrder") as [-> | ->]; reflexivity. }
  rewrite GET_valid by trivial. unfold pipeline.
  replace (filterPatients allPatients params) with allPatients.
  2:{ rewrite filterPatients_filter.
      rewrite <- (filter_true allPatients) at 1.
      apply filter_ext. intros patient. symmetry.
      apply passes_no_parameters. intros name _. apply H. }
  replace (sortPatients localeCompare allPatients
             (Some (or_else (get params "sortBy") ""))
             (Some (or_else (get params "sortOrder") "asc")))
    with allPatients
    by (destruct (H "sortBy") as [-> | ->]; reflexivity).
  replace (GET_page params) with (Num 1)
    by (unfold GET_page; destruct (H "page") as [-> | ->]; reflexivity).
  replace (GET_limit params) with (Num 20)
    by (unfold GET_limit; destruct (H "limit") as [-> | ->]; reflexivity).
  pose proof (paginate_data allPatients 1 20 ltac:(lia) ltac:(lia)) as Hd.
  pose proof (paginate_meta allPatients (Num 1) 20 ltac:(lia)) as Hm.
  destruct (paginateResults allPatients (Num 1) (Num 20)) as [d m].
  simpl in Hd, Hm. subst d m. reflexivity.
Qed.

Lemma plain_request_first_twenty_witness :
  GET sample_collation (Some ages_example) [("search", "")]
  = (all_stages,
     {| body :=
          ResultBody
            {| data := firstn 20 ages_example;
               meta :=
                 {| total := Num (Z.of_nat (List.length ages_example));
                    page := Num 1;
                    limit := Num 20;
                    totalPages :=
                      Num (ceil_div (Z.of_nat (List.length ages_example)) 20)
                 |} |};
        status := 200 |}).
Proof.
  apply (plain_request_first_twenty sample_collation ages_example
           [("search", "")]).
  intros name. cbn [get].
  destruct (String.eqb "search" name); [right|left]; reflexivity.
Defined.

(** * Building a query ([buildQueryParams]) *)

Lemma get_set_same (params : URLSearchParams) (name value : string) :
  get (HomePage.set params name value) name = Some value.
Proof.
  induction params as [|[k v] rest IH]; simpl.
  - now rewrite String.eqb_refl.
  - destruct (String.eqb_spec k name) as [E|E]; simpl.
    + now rewrite String.eqb_refl.
    + destruct (String.eqb_spec k name); [contradiction|exact IH].
Qed.

Lemma get_set_other (params : URLSearchParams) (name other value : string) :
  other <> name ->
  get (HomePage.set params name value) other = get params other.
Proof.
  intros Hne. induction params as [|[k v] rest IH]; simpl.
  - destruct (String.eqb_spec name other); [congruence|reflexivity].
  - destruct (String.eqb_spec k name) as [E|E]; simpl.
    + destruct (String.eqb_spec name other); [congruence|].
      destruct (String.eqb_spec k other); [congruence|].
      now apply get_delete_other.
    + now rewrite IH.
Qed.

Lemma In_set (params : URLSearchParams) (name value k x : string) :
  In (k, x) (HomePage.set params name value) ->
  (k = name /\ x = value) \/ In (k, x) params.
Proof.
  induction params as [|[k' v'] rest IH]; simpl.
  - intros [E|[]]. left. now injection E as <- <-.
  - destruct (String.eqb k' name); simpl.
    + intros [E|H].
      * left. now injection E as <- <-.
      * right. right. unfold delete in H. now apply filter_In in H.
    + intros [E|H]; [now right; left|].
      destruct (IH H) as [?|?]; [now left|now right; right].
Qed.

Section BuildQuery.

Variable JSNumber : Type.
Variable String_of_number : JSNumber -> string.

Lemma String_of_sent (value : Fetchers.QueryValue JSNumber) :
  (forall n, String_of_number n <> "") ->
  Fetchers.is_sent value = true ->
  Fetchers.String_of String_of_number value <> "".
Proof.
  intros Hn. destruct value as [s|n|[]| |]; simpl; try discriminate.
  - destruct (String.eqb_spec s ""); [discriminate|trivial].
  - intros _. apply Hn.
Qed.

Lemma build_get (params : list (string * Fetchers.QueryValue JSNumber))
    (acc : URLSearchParams) (key : string) :
  NoDup (map fst params) ->
  get (fold_left (Fetchers.add_entry String_of_number) params acc) key
  = match Fetchers.lookup params key with
    | Some value =>
        if Fetchers.is_sent value
        then Some (Fetchers.String_of String_of_number value)
        else get acc key
    | None => get acc key
    end.
Proof.
  revert acc. induction params as [|[k v] rest IH]; intros acc Hnd; simpl.
  - reflexivity.
  - inversion Hnd as [|? ? Hnotin Hnd']; subst.
    rewrite IH by trivial.
    destruct (String.eqb_spec k key) as [->|Hne].
    + assert (Hnone : Fetchers.lookup rest key = None).
      { clear -Hnotin. induction rest as [|[k' v'] rest IH]; simpl; trivial.
        simpl in Hnotin.
        destruct (String.eqb_spec k' key) as [->|_]; [tauto|].
        apply IH. tauto. }
      rewrite Hnone.
      destruct (Fetchers.is_sent v); [apply get_set_same|reflexivity].
    + destruct (Fetchers.is_sent v); [|reflexivity].
      rewrite get_set_other by congruence. reflexivity.
Qed.

Lemma build_values (params : list (string * Fetchers.QueryValue JSNumber))
    (acc : URLSearchParams) :
  (forall n, String_of_number n <> "") ->
  (forall k x, In (k, x) acc -> x <> "") ->
  forall k x,
    In (k, x) (fold_left (Fetchers.add_entry String_of_number) params acc) ->
    x <> "".
Proof.
  intros Hn. revert acc.
  induction params as [|[k v] rest IH]; intros acc Hacc; simpl.
  - exact Hacc.
  - apply IH. destruct (Fetchers.is_sent v) eqn:Hs; [|exact Hacc].
    intros k' x H. apply In_set in H. destruct H as [[_ ->]|H].
    + now apply String_of_sent.
    + now apply (Hacc k').
Qed.

End BuildQuery.

(** The query built from an object holds, under each key, the text of the
    key's value when the value is sent, and nothing under a key whose
    value is undefined, null or the empty string or that the object does
    not have; and no value of the query is empty, the text of a number
    never being empty.  The numbers are those of the platform, whatever
    they are, and their text is the one [String] gives them. *)
Theorem buildQueryParams_lookup (JSNumber : Type)
    (String_of_number : JSNumber -> string)
    (params : list (string * Fetchers.QueryValue JSNumber)) (key : string) :
  NoDup (map fst params) ->
  get (Fetchers.buildQueryParams String_of_number params) key
  = match Fetchers.lookup params key with
    | Some value =>
        if Fetchers.is_sent value
        then Some (Fetchers.String_of String_of_number value)
        else None
    | None => None
    end
  /\ ((forall n, String_of_number n <> "") ->
      forall k x,
        In (k, x) (Fetchers.buildQueryParams String_of_number params) ->
        x <> "").
Proof.
  intros Hnd. split.
  - apply (build_get JSNumber String_of_number params [] key Hnd).
  - intros Hn. apply (build_values JSNumber String_of_number params []);
      trivial.
    intros k x [].
Qed.

Lemma buildQueryParams_lookup_witness :
  get (Fetchers.buildQueryParams print_every_digit
         [("page", Fetchers.QNumber (Num 2)); ("search", Fetchers.QString "");
          ("sortBy", Fetchers.QUndefined)])
    "page"
  = Some "2".
Proof.
  apply (proj1 (buildQueryParams_lookup number print_every_digit
                  [("page", Fetchers.QNumber (Num 2));
                   ("search", Fetchers.QString "");
                   ("sortBy", Fetchers.QUndefined)] "page"
                  ltac:(repeat constructor; simpl; intuition discriminate))).
Defined.
